(** * Enterprise RAG system: a shallow embedding of the pipeline core

    The development follows the Python sources module by module:

    - [Text]       the [str] and [re] primitives the sources call
                   ([lower], [split], [findall(r'\w+')], [in]);
    - [Validator]  [src/generation/validator.py];
    - [Enricher]   [src/ingestion/metadata_enricher.py];
    - [Processor]  [src/ingestion/document_processor.py];
    - [Cache]      [src/utils/cache.py];
    - [Generation] the context text and the source list of
                   [src/generation/llm_chain.py];
    - [Statistics] [_calculate_statistics] of the enricher and the query
                   validator of [src/api/models.py];
    - [Api]        the two routes of [src/api/routes.py].

    The definitions come first; the properties follow, one module of
    proofs per module of definitions.

    Conventions.  Text is ASCII text, a [string].  Python floats that are
    produced by dividing two integers and by adding the literals 0.2 and
    0.3 are rationals ([Q]); comparisons against 0.5, 0.0 and 1.0 are then
    exact.  A [dict] is a [gmap]; a [set] is a [gset].  A Python exception
    is a value of [exn] (its message is left out), and a call that may
    raise returns a [result]. *)

From Stdlib Require Import ZArith QArith Qminmax String Ascii List Lia Bool.
From Stdlib Require Import OrdersEx DecimalString.
From stdpp Require Import gmap strings list fin_maps.
From Equations Require Import Equations.

Local Open Scope string_scope.

(** ** Exceptions and fallible results *)

Inductive exn : Type :=
| TypeError
| AttributeError
| OSError
| ExternalError (what : string)
| DocumentProcessingError.

Inductive result (A : Type) : Type :=
| Ok (a : A)
| Raise (e : exn).
Arguments Ok {A} a.
Arguments Raise {A} e.

(** Python values that travel through the dictionaries of the pipeline. *)
#[warnings="-register-all"]
Inductive pyval : Type :=
| PNone
| PStr (s : string)
| PInt (z : Z)
| PList (l : list pyval).

(** A langchain [Document]: its text and a reference to its metadata
    dictionary, which lives in a store because the code updates it in place. *)
Record Document : Type := mkDocument {
  page_content : string;
  metadata : nat
}.

(** ** Text primitives *)
Module Text.

Definition code (c : ascii) : nat := nat_of_ascii c.

Definition between (lo hi : nat) (c : ascii) : bool :=
  (lo <=? code c)%nat && (code c <=? hi)%nat.

Definition is_upper (c : ascii) : bool := between 65 90 c.
Definition is_lower (c : ascii) : bool := between 97 122 c.
Definition is_digit (c : ascii) : bool := between 48 57 c.

(** [\w] on ASCII text: letters, digits and the underscore. *)
Definition is_word (c : ascii) : bool :=
  is_upper c || is_lower c || is_digit c || (code c =? 95)%nat.

(** [str.isspace] on ASCII text: TAB..CR, FS..US and the blank. *)
Definition is_space (c : ascii) : bool :=
  between 9 13 c || between 28 32 c.

Definition lower_char (c : ascii) : ascii :=
  if is_upper c then ascii_of_nat (code c + 32) else c.

(** [s.lower()] *)
Fixpoint lower (s : string) : string :=
  match s with
  | EmptyString => EmptyString
  | String c s' => String (lower_char c) (lower s')
  end.

Definition flush (cur : string) : list string :=
  match cur with
  | EmptyString => []
  | _ => [cur]
  end.

(** The maximal runs of characters satisfying [p], left to right; [cur]
    is the run being read. *)
Fixpoint runs (p : ascii -> bool) (s : string) (cur : string) : list string :=
  match s with
  | EmptyString => flush cur
  | String c s' =>
      if p c then runs p s' (cur ++ String c EmptyString)
      else flush cur ++ runs p s' EmptyString
  end.

(** [re.findall(r'\w+', s)] *)
Definition findall_word (s : string) : list string := runs is_word s "".

(** [s.split()] *)
Definition split (s : string) : list string :=
  runs (fun c => negb (is_space c)) s "".

(** [needle in hay] *)
Fixpoint str_in (needle hay : string) : bool :=
  String.prefix needle hay ||
  match hay with
  | EmptyString => false
  | String _ hay' => str_in needle hay'
  end.

(** [len(s)] *)
Definition len (s : string) : nat := String.length s.

End Text.

(** ** The response validator *)
Module Validator.
Import Text.
Local Open Scope Q_scope.

Record validation_result : Type := mkResult {
  is_valid : bool;
  warnings : list string;
  grounding_score : Q;
  quality_score : Q
}.

Definition append_warning (w : string) (r : validation_result) :=
  mkResult (is_valid r) (warnings r ++ [w]) (grounding_score r) (quality_score r).
Definition set_grounding (g : Q) (r : validation_result) :=
  mkResult (is_valid r) (warnings r) g (quality_score r).
Definition set_quality (q : Q) (r : validation_result) :=
  mkResult (is_valid r) (warnings r) (grounding_score r) q.

(** [__init__] *)
Definition min_answer_length : nat := 10.
Definition max_answer_length : nat := 5000.
Definition uncertainty_phrases : list string :=
  [ "i don't have enough information";
    "cannot find";
    "not available in the context";
    "not mentioned in the documents" ].

Definition word_set (s : string) : gset string := list_to_set (findall_word s).

(** One turn of the loop of [_check_grounding] on the pair
    [(overlap_count, total_terms)]. *)
Definition grounding_step (answer_lower : string) (acc : nat * nat) (doc : Document)
  : nat * nat :=
  let context_lower := lower (page_content doc) in
  let answer_words := word_set answer_lower in
  let context_words := word_set context_lower in
  (fst acc + size (answer_words ∩ context_words), snd acc + size answer_words)%nat.

Definition ratio (a b : nat) : Q := inject_Z (Z.of_nat a) / inject_Z (Z.of_nat b).

(** [_check_grounding] *)
Definition check_grounding (answer : string) (context_docs : list Document) : Q :=
  match context_docs with
  | [] => 0
  | _ =>
      let answer_lower := lower answer in
      let acc := fold_left (grounding_step answer_lower) context_docs (0, 0)%nat in
      if (snd acc =? 0)%nat then 0
      else Qmin (ratio (fst acc) (snd acc)) 1
  end.

(** [_contains_uncertainity] *)
Definition contains_uncertainity (answer : string) : bool :=
  let answer_lower := lower answer in
  existsb (fun phrase => str_in phrase answer_lower) uncertainty_phrases.

(** [_calculate_quality_score] *)
Definition calculate_quality_score (answer : string) (grounded_score : Q) : Q :=
  let score := grounded_score in
  let word_count := length (split answer) in
  let score :=
    if (50 <=? word_count)%nat && (word_count <=? 500)%nat then score + (2 # 10) else score in
  let score :=
    if (word_count <? 20)%nat || (1000 <? word_count)%nat then score - (3 # 10) else score in
  Qmax 0 (Qmin 1 score).

Definition Qltb (x y : Q) : bool :=
  match x ?= y with Lt => true | _ => false end.

(** The body of [validate] once [answer] is known to be a string. *)
Definition validate_answer (answer : string) (context_docs : list Document)
  : validation_result :=
  let r := mkResult true [] 0 0 in
  let r :=
    if (len answer <? min_answer_length)%nat
    then set_quality (quality_score r - (2 # 10)) (append_warning "Answer too short" r)
    else r in
  let r :=
    if (max_answer_length <? len answer)%nat
    then set_quality (quality_score r - (1 # 10)) (append_warning "Answer too long" r)
    else r in
  let grounding := check_grounding answer context_docs in
  let r := set_grounding grounding r in
  let r :=
    if Qltb grounding (1 # 2) then append_warning "Low grounding score" r else r in
  let r :=
    if contains_uncertainity answer
    then append_warning "Response indicates uncertainity" r else r in
  set_quality (calculate_quality_score answer grounding) r.

(** [validate]: [response.get("answer", "")], then the body.  A value that
    is not a string has no [lower] method ([AttributeError]), and the ones
    without a length fail at [len] ([TypeError]). *)
Definition validate (response : gmap string pyval) (context_docs : list Document)
  : result validation_result :=
  match default (PStr "") (response !! "answer") with
  | PStr answer => Ok (validate_answer answer context_docs)
  | PList _ => Raise AttributeError
  | PNone | PInt _ => Raise TypeError
  end.

(** The grounding score as the specification words it. *)
Definition spec_overlap (A : gset string) (context_docs : list Document) : nat :=
  foldr (fun doc n => (size (A ∩ word_set (lower (page_content doc))) + n)%nat)
        0%nat context_docs.

Definition spec_grounding (answer : string) (context_docs : list Document) : Q :=
  let A := word_set (lower answer) in
  let overlap := spec_overlap A context_docs in
  let total := (size A * length context_docs)%nat in
  if (length context_docs =? 0)%nat || (total =? 0)%nat then 0
  else Qmin (ratio overlap total) 1.

(** The quality score as the specification words it. *)
Definition spec_quality (word_count : nat) (grounding : Q) : Q :=
  let bonus := if (50 <=? word_count)%nat && (word_count <=? 500)%nat then 2 # 10 else 0 in
  let malus := if (word_count <? 20)%nat || (1000 <? word_count)%nat then 3 # 10 else 0 in
  Qmax 0 (Qmin 1 (grounding + bonus - malus)).

End Validator.

(** ** The metadata enricher *)
Module Enricher.
Import Text.

(** What the enricher takes from the Python runtime: [re.findall] for
    the patterns below, and the order in which [list(set(...))] lists a
    set, which Python leaves unspecified. *)
Class Runtime : Type := {
  re_findall : string -> string -> list string;
  set_to_list : gset string -> list string
}.

(** [__init__]: the patterns, in the insertion order of the dictionary. *)
Definition entity_patters : list (string * string) :=
  [ ("email", "\b[A-Za-z0-9._%+-]+@[A-Za-z0-9.-]+\.[A-Z|a-z]{2,}\b");
    ("phone", "\b\d{3}[-.]?\d{3}[-.]?\d{4}\b");
    ("date", "\b\d{1,2}/\d{1,2}/\d{2,4}\b");
    ("url", "https?://[^\s]+") ].

Section WithRuntime.
Context {rt : Runtime}.

(** One turn of the loop of [_extract_entities]. *)
Definition extract_step (text : string) (entities : gmap string (list string))
    (item : string * string) : gmap string (list string) :=
  let matches := re_findall (snd item) text in
  match matches with
  | [] => entities
  | _ => <[fst item := set_to_list (list_to_set matches)]> entities
  end.

(** The entry that a turn of the loop leaves for its entity type, given
    the entry [before] it. *)
Definition stored (text pattern : string) (before : option (list string))
  : option (list string) :=
  match re_findall pattern text with
  | [] => before
  | m :: ms => Some (set_to_list (list_to_set (m :: ms)))
  end.

(** [_extract_entities] *)
Definition extract_entities (text : string) : gmap string (list string) :=
  fold_left (extract_step text) entity_patters ∅.
End WithRuntime.

(** [_identify_content_type] *)
Definition identify_content_type (document : Document) : string :=
  let content := lower (page_content document) in
  if existsb (fun word => str_in word content) ["class"; "def "; "function"; "import"]
  then "code"
  else if existsb (fun word => str_in word content)
                  ["abstract"; "introduction"; "methodology"]
  then "academic"
  else if str_in "meeting" content || str_in "agenda" content
  then "meeting_notes"
  else if str_in "policy" content || str_in "procedure" content
  then "policy"
  else "general".

(** The classification as the specification words it: a keyword appears
    in the text when the text is some prefix, the keyword, and some suffix;
    the first category with a keyword that appears wins. *)
Definition occurs (w s : string) : Prop := exists pre post, s = pre ++ w ++ post.

Definition any_occurs (ws : list string) (s : string) : Prop :=
  Exists (fun w => occurs w s) ws.

Definition code_keywords : list string := ["class"; "def "; "function"; "import"].
Definition academic_keywords : list string := ["abstract"; "introduction"; "methodology"].
Definition meeting_keywords : list string := ["meeting"; "agenda"].
Definition policy_keywords : list string := ["policy"; "procedure"].

(** The test [any(word in content for word in ws)]. *)
Definition appears (ws : list string) (content : string) : bool :=
  existsb (fun w => str_in w content) ws.

Inductive spec_content_type (content : string) : string -> Prop :=
| ct_code :
    any_occurs code_keywords content ->
    spec_content_type content "code"
| ct_academic :
    ~ any_occurs code_keywords content ->
    any_occurs academic_keywords content ->
    spec_content_type content "academic"
| ct_meeting :
    ~ any_occurs code_keywords content ->
    ~ any_occurs academic_keywords content ->
    any_occurs meeting_keywords content ->
    spec_content_type content "meeting_notes"
| ct_policy :
    ~ any_occurs code_keywords content ->
    ~ any_occurs academic_keywords content ->
    ~ any_occurs meeting_keywords content ->
    any_occurs policy_keywords content ->
    spec_content_type content "policy"
| ct_general :
    ~ any_occurs code_keywords content ->
    ~ any_occurs academic_keywords content ->
    ~ any_occurs meeting_keywords content ->
    ~ any_occurs policy_keywords content ->
    spec_content_type content "general".

End Enricher.

(** ** Stateful code that may raise

    A computation takes the state and returns a result together with the
    state it leaves behind: what was mutated before an exception stays
    mutated, as in Python. *)
Definition M (S A : Type) : Type := S -> result A * S.

#[export] Instance M_ret {S} : MRet (M S) := fun A a st => (Ok a, st).
#[export] Instance M_bind {S} : MBind (M S) := fun A B f m st =>
  match m st with
  | (Ok a, st') => f a st'
  | (Raise e, st') => (Raise e, st')
  end.

Definition raise {S A} (e : exn) : M S A := fun st => (Raise e, st).

(** [try: body except Exception as e: handler(e)] *)
Definition try_except {S A} (body : M S A) (handler : exn -> M S A) : M S A :=
  fun st =>
    match body st with
    | (Ok a, st') => (Ok a, st')
    | (Raise e, st') => handler e st'
    end.

Definition gets {S A} (f : S -> A) : M S A := fun st => (Ok (f st), st).
Definition modify {S} (f : S -> S) : M S unit := fun st => (Ok tt, f st).

(** ** Configuration: the fields of [Settings] the core reads *)
Module Config.

Record Settings : Type := mkSettings {
  CHUNK_SIZE : Z;
  CHUNK_OVERLAP : Z;
  MAX_DOCUMENT_SIZE_MB : Z;
  SUPPORTED_FORMATS : list string;
  REDIS_URL : string;
  CACHE_TTL_SECONDS : Z;
  ENABLE_CACHE : bool
}.

(** The defaults of [core/config.py]. *)
Definition default_settings : Settings := {|
  CHUNK_SIZE := 1000;
  CHUNK_OVERLAP := 200;
  MAX_DOCUMENT_SIZE_MB := 50;
  SUPPORTED_FORMATS := [".pdf"; ".docx"; ".txt"; ".md"; ".pptx"];
  REDIS_URL := "redis://localhost:6379/0";
  CACHE_TTL_SECONDS := 3600;
  ENABLE_CACHE := true
|}.

End Config.

(** ** The document processor *)
Module Processor.
Import Text Config.

Definition byte : Type := Byte.byte.

(** *** Paths.  A path is its normalised text; [name] is the last
    component and [suffix] follows [pathlib]: the text from the last dot
    of the name, when that dot is neither first nor last. *)
Definition slash : ascii := "/"%char.
Definition dot : ascii := "."%char.

Fixpoint name_from (s : string) (cur : string) : string :=
  match s with
  | EmptyString => cur
  | String c s' =>
      if Ascii.eqb c slash then name_from s' EmptyString
      else name_from s' (cur ++ String c EmptyString)
  end.

Definition name (file_path : string) : string := name_from file_path "".

(** [s.rfind(c)] *)
Fixpoint rfind (c : ascii) (s : string) : option nat :=
  match s with
  | EmptyString => None
  | String d s' =>
      match rfind c s' with
      | Some i => Some (S i)
      | None => if Ascii.eqb d c then Some 0%nat else None
      end
  end.

Definition suffix (file_path : string) : string :=
  let nm := name file_path in
  match rfind dot nm with
  | Some i =>
      if (0 <? i)%nat && (i <? len nm - 1)%nat
      then substring i (len nm - i) nm
      else ""
  | None => ""
  end.

(** *** The world of a processor call *)
Inductive loader_class : Type :=
| PyPDFLoader
| UnstructuredWordDocumentLoader
| UnstructuredMarkdownLoader
| TextLoader.

Inductive event : Type :=
| ELoad (cls : loader_class) (file_path : string)
| ESplit.

(** The metadata dictionaries by reference, the clock, and the calls made
    to the loaders and the splitter so far. *)
Record world : Type := mkWorld {
  store : gmap nat (gmap string pyval);
  tick : nat;
  events : list event
}.

(** What the processor takes from outside: the files (not modified
    during a call), the langchain loaders and splitter, [hashlib.sha256]
    and the text of [datetime.now().isoformat()] at a clock tick. *)
Class Env : Type := {
  settings : Settings;
  fs : gmap string (list byte);
  run_loader : loader_class -> string -> M world (list Document);
  run_splitter : list Document -> M world (list Document);
  sha256_hexdigest : list byte -> string;
  isoformat : nat -> string
}.

(** [__init__]: the keyword arguments handed to
    [RecursiveCharacterTextSplitter], as the source spells them.
    [length_function] and [separators] are not integers; their values
    play no part below. *)
Definition splitter_kwargs (s : Settings) : list (string * pyval) :=
  [ ("chunk_size", PInt (CHUNK_SIZE s));
    ("chunnk_overlap", PInt (CHUNK_OVERLAP s));
    ("length_function", PNone);
    ("separators", PList [PStr (String "010" (String "010" "")); PStr (String "010" "");
                          PStr ". "; PStr " "; PStr ""]) ].

(** Python binds keyword arguments by name: a keyword that no parameter
    of the callee carries is a [TypeError]. *)
Definition bind_kwargs (params : list string) (kwargs : list (string * pyval))
  : result (gmap string pyval) :=
  if forallb (fun kv => bool_decide (fst kv ∈ params)) kwargs
  then Ok (list_to_map kwargs)
  else Raise TypeError.

(** The construction of the splitter in [__init__], for a splitter class
    whose constructor takes the keyword parameters [params]. *)
Definition init_text_splitter (params : list string) (s : Settings)
  : result (gmap string pyval) :=
  bind_kwargs params (splitter_kwargs s).

(** [__init__]: the loader table. *)
Definition loaders : gmap string loader_class :=
  list_to_map [ (".pdf", PyPDFLoader);
                (".docx", UnstructuredWordDocumentLoader);
                (".txt", TextLoader);
                (".md", UnstructuredMarkdownLoader) ].

Definition Qgtb (x y : Q) : bool :=
  match (x ?= y)%Q with Gt => true | _ => false end.

Definition emit (e : event) : M world unit :=
  modify (fun w => mkWorld (store w) (tick w) (events w ++ [e])).

(** [datetime.now().isoformat()] *)
Definition now `{Env} : M world string :=
  fun w => (Ok (isoformat (tick w)), mkWorld (store w) (S (tick w)) (events w)).

(** [d.update(new)] on the dictionary at [ref]. *)
Definition update_metadata (ref : nat) (new : gmap string pyval) : M world unit :=
  modify (fun w =>
    mkWorld (<[ref := new ∪ default ∅ (store w !! ref)]> (store w)) (tick w) (events w)).

(** *** [_calculate_file_hash].  The file object is the bytes not yet
    read; the hash object is the bytes absorbed so far, and its
    [hexdigest] is the digest of them. *)
Definition read (n : nat) (f : list byte) : list byte * list byte :=
  (take n f, drop n f).

(** [for byte_block in iter(lambda: f.read(4096), b""): h.update(byte_block)] *)
Equations? hash_loop (f : list byte) (h : list byte) : list byte
  by wf (length f) lt :=
hash_loop f h with Equations.Prop.Logic.inspect (read 4096 f) := {
  | exist _ ([], _) _ => h
  | exist _ (byte_block, f') _ => hash_loop f' (h ++ byte_block) }.
Proof.
  rewrite length_drop. destruct f; [discriminate | simpl; lia].
Qed.

Section WithEnv.
Context `{Env}.

(** [_validate_file] *)
Definition validate_file (file_path : string) : M world unit :=
  match fs !! file_path with
  | None => raise DocumentProcessingError
  | Some data =>
      if negb (bool_decide (suffix file_path ∈ SUPPORTED_FORMATS settings))
      then raise DocumentProcessingError
      else
        let file_size_mb := (Z.of_nat (length data) # 1048576)%Q in
        if Qgtb file_size_mb (inject_Z (MAX_DOCUMENT_SIZE_MB settings))
        then raise DocumentProcessingError
        else mret tt
  end.

(** [_load_document] *)
Definition load_document (file_path : string) : M world (list Document) :=
  match loaders !! suffix file_path with
  | None => raise DocumentProcessingError
  | Some loader_class =>
      emit (ELoad loader_class file_path) ;;
      run_loader loader_class file_path
  end.

(** [text_splitter.split_documents] *)
Definition split_documents (documents : list Document) : M world (list Document) :=
  emit ESplit ;; run_splitter documents.

(** [_calculate_file_hash] *)
Definition calculate_file_hash (file_path : string) : M world string :=
  match fs !! file_path with
  | None => raise OSError
  | Some data => mret (sha256_hexdigest (hash_loop data []))
  end.

(** *** [_enrich_metadata] *)

(** The dictionary literal of the loop body: the generated entries, then
    [**custom_metadata], whose entries win. *)
Definition chunk_fields (file_path file_hash : string) (i total : nat)
    (processed_at : string) (chunk : Document) (custom_metadata : gmap string pyval)
  : gmap string pyval :=
  custom_metadata ∪
  list_to_map
    [ ("source", PStr file_path);
      ("file_name", PStr (name file_path));
      ("file_type", PStr (suffix file_path));
      ("file_hash", PStr file_hash);
      ("chunk_index", PInt (Z.of_nat i));
      ("total_chunks", PInt (Z.of_nat total));
      ("processed_at", PStr processed_at);
      ("chunk_size", PInt (Z.of_nat (len (page_content chunk)))) ].

(** [for i, chunk in enumerate(chunks)], from index [i] on. *)
Fixpoint enrich_loop (file_path file_hash : string) (total : nat)
    (custom_metadata : gmap string pyval) (i : nat) (chunks : list Document)
  : M world unit :=
  match chunks with
  | [] => mret tt
  | chunk :: rest =>
      processed_at ← now;
      update_metadata (metadata chunk)
        (chunk_fields file_path file_hash i total processed_at chunk custom_metadata) ;;
      enrich_loop file_path file_hash total custom_metadata (S i) rest
  end.

Definition enrich_metadata (chunks : list Document) (file_path : string)
    (custom_metadata : gmap string pyval) : M world (list Document) :=
  file_hash ← calculate_file_hash file_path;
  enrich_loop file_path file_hash (length chunks) custom_metadata 0 chunks ;;
  mret chunks.

(** [process_document] *)
Definition process_document (file_path : string)
    (metadata : option (gmap string pyval)) : M world (list Document) :=
  try_except
    (validate_file file_path ;;
     documents ← load_document file_path;
     chunks ← split_documents documents;
     enrich_metadata chunks file_path (default ∅ metadata))
    (fun e => raise DocumentProcessingError).

(** The failure conditions, as propositions over the files and the
    configuration. *)
Definition missing (file_path : string) : Prop := fs !! file_path = None.

Definition unsupported (file_path : string) : Prop :=
  suffix file_path ∉ SUPPORTED_FORMATS settings.

Definition too_large (file_path : string) : Prop :=
  exists data, fs !! file_path = Some data /\
    (MAX_DOCUMENT_SIZE_MB settings * 1048576 < Z.of_nat (length data))%Z.

Definition no_loader (file_path : string) : Prop :=
  loaders !! suffix file_path = None.

(** The loader of the file's extension raises, called in the world [w]
    after the load has been logged. *)
Definition loader_raises (file_path : string) (w : world) : Prop :=
  exists cls e w1,
    loaders !! suffix file_path = Some cls /\
    run_loader cls file_path
      (mkWorld (store w) (tick w) (events w ++ [ELoad cls file_path])) = (Raise e, w1).

(** The loader returns and the splitter raises on what it returned. *)
Definition splitter_raises (file_path : string) (w : world) : Prop :=
  exists cls documents w1 e w2,
    loaders !! suffix file_path = Some cls /\
    run_loader cls file_path
      (mkWorld (store w) (tick w) (events w ++ [ELoad cls file_path])) =
      (Ok documents, w1) /\
    run_splitter documents (mkWorld (store w1) (tick w1) (events w1 ++ [ESplit])) =
      (Raise e, w2).

Definition fails (file_path : string) (custom : option (gmap string pyval))
    (w : world) : Prop :=
  exists w', process_document file_path custom w = (Raise DocumentProcessingError, w').

End WithEnv.

End Processor.

(** ** The cache layer *)
Module Cache.
Import Text Config.

(** What the cache takes from the Python runtime: [repr], [hashlib.md5]
    and the [json] codec. *)
Class Runtime : Type := {
  repr : pyval -> string;
  md5_hexdigest : string -> string;
  json_dumps : pyval -> result string;
  json_loads : string -> result pyval
}.

(** *** [generate_key] *)

(** [sorted(kwargs.items())]: the keys of a dictionary are distinct, so two
    items are ordered by their keys alone.  [sorted] is stable, as is
    insertion from the right. *)
Fixpoint insert_item (x : string * pyval) (l : list (string * pyval))
  : list (string * pyval) :=
  match l with
  | [] => [x]
  | y :: l' =>
      if String.leb (fst x) (fst y) then x :: y :: l' else y :: insert_item x l'
  end.

Definition sorted (items : list (string * pyval)) : list (string * pyval) :=
  foldr insert_item [] items.

Section Formatting.
Context {rt : Runtime}.

(** [repr] of a tuple and of a list, given the texts of their elements. *)
Definition repr_tuple (elems : list string) : string :=
  match elems with
  | [] => "()"
  | [x] => "(" ++ x ++ ",)"
  | _ => "(" ++ String.concat ", " elems ++ ")"
  end.

Definition repr_list (elems : list string) : string :=
  "[" ++ String.concat ", " elems ++ "]".

Definition repr_item (kv : string * pyval) : string :=
  repr_tuple [repr (PStr (fst kv)); repr (snd kv)].

(** [generate_key]; [kwargs] lists the keyword arguments in the order of
    the call. *)
Definition generate_key (prefix : string) (args : list pyval)
    (kwargs : list (string * pyval)) : string :=
  let key_data :=
    prefix ++ ":" ++ repr_tuple (map repr args) ++ ":" ++
    repr_list (map repr_item (sorted kwargs)) in
  md5_hexdigest key_data.

(** The call [cache.generate_key(prefix, *args, **kwargs)] that the
    wrapper makes: [prefix] is bound to the first parameter, so a keyword
    argument of that name is a second value for it and Python raises
    [TypeError] before the body runs. *)
Definition call_generate_key (prefix : string) (args : list pyval)
    (kwargs : list (string * pyval)) : result string :=
  if bool_decide ("prefix" ∈ kwargs.*1) then Raise TypeError
  else Ok (generate_key prefix args kwargs).

End Formatting.

(** *** The Redis server as the client sees it *)
Inductive event : Type :=
| EFromUrl (url : string)
| EPing
| EGet (key : string)
| ESetex (key : string) (ttl : Z) (value : string)
| EDelete (key : string)
| EClose
| ECall.

(** The stored entries, the commands issued so far, and for each coming
    call to the client whether it will raise ([true]); past the end of
    [faults] no call raises. *)
Record server : Type := mkServer {
  kv : gmap string string;
  faults : list bool;
  log : list event
}.

(** [CacheManager]: a client handle once [from_url] has returned. *)
Record CacheManager : Type := mkCache {
  redis_client : option unit;
  enabled : bool;
  ttl : Z
}.

(** The state of a call: the manager object [self] and the server. *)
Record state : Type := mkState {
  self : CacheManager;
  srv : server
}.

Definition set_self (c : CacheManager) : M state unit :=
  modify (fun st => mkState c (srv st)).

(** A call to the client: logged, then it raises or acts on the entries. *)
Definition client_call {A} (e : event) (act : gmap string string -> A * gmap string string)
  : M state A :=
  fun st =>
    let s := srv st in
    let s' kv' := mkServer kv' (tail (faults s)) (log s ++ [e]) in
    match faults s with
    | true :: _ => (Raise (ExternalError "redis"), mkState (self st) (s' (kv s)))
    | _ => let (a, kv') := act (kv s) in (Ok a, mkState (self st) (s' kv'))
    end.

Definition redis_from_url (url : string) : M state unit :=
  client_call (EFromUrl url) (fun m => (tt, m)).
Definition redis_ping : M state unit :=
  client_call EPing (fun m => (tt, m)).
Definition redis_get (key : string) : M state (option string) :=
  client_call (EGet key) (fun m => (m !! key, m)).
Definition redis_setex (key : string) (seconds : Z) (value : string) : M state unit :=
  client_call (ESetex key seconds value) (fun m => (tt, <[key := value]> m)).
Definition redis_delete (key : string) : M state unit :=
  client_call (EDelete key) (fun m => (tt, delete key m)).
Definition redis_close : M state unit :=
  client_call EClose (fun m => (tt, m)).

Definition lift {A} (r : result A) : M state A := fun st => (r, st).

Section WithRuntime.
Context {rt : Runtime}.
Variable settings : Settings.

(** [__init__] *)
Definition new_cache : CacheManager :=
  mkCache None (ENABLE_CACHE settings) (CACHE_TTL_SECONDS settings).

(** [connect] *)
Definition connect : M state unit :=
  c ← gets self;
  if negb (enabled c) then mret tt
  else
    try_except
      (client ← redis_from_url (REDIS_URL settings);
       set_self (mkCache (Some client) (enabled c) (ttl c)) ;;
       redis_ping)
      (fun e =>
         c ← gets self;
         set_self (mkCache (redis_client c) false (ttl c))).

(** [disconnect] *)
Definition disconnect : M state unit :=
  c ← gets self;
  match redis_client c with
  | Some _ => redis_close
  | None => mret tt
  end.

Definition unusable (c : CacheManager) : bool :=
  negb (enabled c) || negb (bool_decide (is_Some (redis_client c))).

(** [get]; Python's [None] is [PNone]. *)
Definition get (key : string) : M state pyval :=
  c ← gets self;
  if unusable c then mret PNone
  else
    try_except
      (value ← redis_get key;
       match value with
       | Some (String a v) => lift (json_loads (String a v))
       | Some EmptyString | None => mret PNone
       end)
      (fun e => mret PNone).

(** [set] *)
Definition set (key : string) (value : pyval) (ttl_arg : option Z) : M state bool :=
  c ← gets self;
  if unusable c then mret false
  else
    try_except
      (serialized ← lift (json_dumps value);
       let seconds :=
         match ttl_arg with
         | Some t => if (t =? 0)%Z then ttl c else t
         | None => ttl c
         end in
       redis_setex key seconds serialized ;;
       mret true)
      (fun e => mret false).

(** [delete] *)
Definition delete (key : string) : M state bool :=
  c ← gets self;
  if unusable c then mret false
  else
    try_except (redis_delete key ;; mret true) (fun e => mret false).

(** The first two steps of the wrapper: a new manager, connected or not. *)
Definition prepare : M state unit := set_self new_cache ;; connect.

(** The wrapped function acts on the server, not on the manager. *)
Definition call (func : M server pyval) : M state pyval :=
  fun st =>
    let s := srv st in
    let (r, s') := func (mkServer (kv s) (faults s) (log s ++ [ECall])) in
    (r, mkState (self st) s').

(** The [wrapper] that [cached(prefix, ttl)] puts around [func], called
    with positional arguments [args] and keyword arguments [kwargs]. *)
Definition cached (prefix : string) (ttl_arg : option Z) (func : M server pyval)
    (args : list pyval) (kwargs : list (string * pyval)) : M state pyval :=
  set_self new_cache ;;
  connect ;;
  cache_key ← lift (call_generate_key prefix args kwargs);
  cached_result ← get cache_key;
  match cached_result with
  | PNone =>
      result ← call func;
      set cache_key result ttl_arg ;;
      disconnect ;;
      mret result
  | _ =>
      disconnect ;;
      mret cached_result
  end.

End WithRuntime.

(** The connection fails when [from_url] or the [ping] after it raises. *)
Definition connection_fails (st : state) : Prop :=
  faults (srv st) !! 0%nat = Some true \/ faults (srv st) !! 1%nat = Some true.

(** The call to [close] raises, if it is made in the server state [s]. *)
Definition close_raises (s : server) : Prop := faults s !! 0%nat = Some true.

End Cache.

(** ** Sample runtimes, for running the definitions on concrete inputs *)
Module Samples.
Import Text.

(** A stand-in for [re.findall]: for the URL pattern, the blank-separated
    words that start with "http"; nothing for the other patterns. *)
Definition sample_findall (pattern text : string) : list string :=
  if String.eqb pattern "https?://[^\s]+"
  then filter (fun w => String.prefix "http" w = true) (split text)
  else [].

Definition enricher_runtime : Enricher.Runtime := {|
  Enricher.re_findall := sample_findall;
  Enricher.set_to_list := elements
|}.

(** The keyword parameters of langchain's [RecursiveCharacterTextSplitter]
    constructor and of the [TextSplitter] constructor it forwards to;
    neither takes further keywords. *)
Definition langchain_splitter_params : list string :=
  [ "separators"; "keep_separator"; "is_separator_regex";
    "chunk_size"; "chunk_overlap"; "length_function";
    "add_start_index"; "strip_whitespace" ].

Definition x61 : Byte.byte := Byte.x61.

Definition sample_fs : gmap string (list Byte.byte) :=
  {[ "docs/notes.txt" := [x61; x61; x61] ]}.

Definition empty_world : Processor.world := Processor.mkWorld ∅ 0 [].

(** A loader that returns the file as one document, and a splitter that
    cuts whatever it gets into two chunks with dictionaries of their own. *)
Definition one_document (cls : Processor.loader_class) (file_path : string)
  : M Processor.world (list Document) :=
  fun w =>
    (Ok [mkDocument "aaa" 0],
     Processor.mkWorld (<[0%nat := ∅]> (Processor.store w))
       (Processor.tick w) (Processor.events w)).

Definition two_chunks (documents : list Document) : M Processor.world (list Document) :=
  fun w =>
    (Ok [mkDocument "aa" 1; mkDocument "a" 2],
     Processor.mkWorld (<[1%nat := ∅]> (<[2%nat := ∅]> (Processor.store w)))
       (Processor.tick w) (Processor.events w)).

Definition sample_env : Processor.Env := {|
  Processor.settings := Config.default_settings;
  Processor.fs := sample_fs;
  Processor.run_loader := one_document;
  Processor.run_splitter := two_chunks;
  Processor.sha256_hexdigest := fun data => "sha256:" ++ string_of_list_byte data;
  Processor.isoformat := fun t => "2024-01-01T00:00:00"
|}.

(** The same, with a loader that raises (a text file in an encoding that
    [TextLoader] cannot decode). *)
Definition failing_loader_env : Processor.Env := {|
  Processor.settings := Config.default_settings;
  Processor.fs := sample_fs;
  Processor.run_loader := fun cls file_path => raise (ExternalError "loader");
  Processor.run_splitter := two_chunks;
  Processor.sha256_hexdigest := fun data => "sha256:" ++ string_of_list_byte data;
  Processor.isoformat := fun t => "2024-01-01T00:00:00"
|}.

(** The defaults with a size limit of zero megabytes. *)
Definition tiny_limit_env : Processor.Env := {|
  Processor.settings :=
    Config.mkSettings 1000 200 0 [".pdf"; ".docx"; ".txt"; ".md"; ".pptx"]
      "redis://localhost:6379/0" 3600 true;
  Processor.fs := sample_fs;
  Processor.run_loader := one_document;
  Processor.run_splitter := two_chunks;
  Processor.sha256_hexdigest := fun data => "sha256:" ++ string_of_list_byte data;
  Processor.isoformat := fun t => "2024-01-01T00:00:00"
|}.

(** Stand-ins for [repr], [hashlib.md5] and [json]. *)
Definition sample_repr (v : pyval) : string :=
  match v with
  | PNone => "None"
  | PStr t => "'" ++ t ++ "'"
  | PInt z => NilZero.string_of_int (Z.to_int z)
  | PList _ => "[...]"
  end.

Definition cache_runtime : Cache.Runtime := {|
  Cache.repr := sample_repr;
  Cache.md5_hexdigest := fun data => "md5:" ++ data;
  Cache.json_dumps := fun v => Ok (sample_repr v);
  Cache.json_loads := fun t => Ok (PStr t)
|}.

(** A fresh server on which [from_url] returns, [ping] raises and [close]
    raises. *)
Definition flaky_server : Cache.server := Cache.mkServer ∅ [false; true; true] [].

(** The same, with a [close] that returns. *)
Definition down_server : Cache.server := Cache.mkServer ∅ [false; true] [].

Definition start (s : Cache.server) : Cache.state :=
  Cache.mkState (Cache.mkCache None false 0) s.

(** A wrapped function that returns without touching the server. *)
Definition answer_fn : M Cache.server pyval := mret (PStr "forty-two").

End Samples.

(** ** The answer generator: the helpers of [RAGChain] *)
Module Generation.
Import Text.

(** The sentence that the prompt template tells the model to state when the
    context does not hold the answer. *)
Definition refusal_sentence : string :=
  "I don't have enough information to answer this question based on the available documents.".

Definition newline : string := String "010" EmptyString.

(** The text of a positive integer in an f-string. *)
Definition decimal (n : nat) : string := NilEmpty.string_of_uint (Nat.to_uint n).

(** [str(value)] in an f-string: a string is itself, anything else is as
    the runtime prints it. *)
Definition py_str (str_other : pyval -> string) (v : pyval) : string :=
  match v with
  | PStr s => s
  | _ => str_other v
  end.

(** [doc.metadata.get(key, fallback)], the metadata being read in [store]. *)
Definition metadata_get (store : gmap nat (gmap string pyval)) (doc : Document)
    (key : string) : option pyval :=
  default ∅ (store !! metadata doc) !! key.

Section WithStore.
Variable str_other : pyval -> string.
Variable store : gmap nat (gmap string pyval).

(** The block that [_format_context] appends for the document numbered [i]. *)
Definition context_block (i : nat) (doc : Document) : string :=
  let source := default (PStr "Unknown") (metadata_get store doc "source") in
  let content := page_content doc in
  "Document " ++ decimal i ++ " - " ++ py_str str_other source ++ newline ++
  content ++ newline.

(** [for i, doc in enumerate(docs, i)] *)
Fixpoint context_blocks (i : nat) (docs : list Document) : list string :=
  match docs with
  | [] => []
  | doc :: rest => context_block i doc :: context_blocks (S i) rest
  end.

(** [_format_context] *)
Definition format_context (docs : list Document) : string :=
  String.concat newline (context_blocks 1 docs).

(** An entry of [_extract_sources]; [relevance_score] is [None] for the
    fallback, the float 0.0. *)
Record SourceRef : Type := mkSourceRef {
  file_name : pyval;
  source : pyval;
  chunk_index : pyval;
  relevance_score : option pyval
}.

(** [_extract_sources] *)
Definition extract_sources (docs : list Document) : list SourceRef :=
  map (fun doc =>
         mkSourceRef
           (default (PStr "Unknown") (metadata_get store doc "file_name"))
           (default (PStr "Unknown") (metadata_get store doc "source"))
           (default (PInt 0) (metadata_get store doc "chunk_index"))
           (metadata_get store doc "relevance_score"))
      docs.

End WithStore.

End Generation.

(** ** Text statistics of the enricher, and the query of a request *)
Module Statistics.
Import Text.

Definition is_terminator (c : ascii) : bool :=
  (code c =? 46)%nat || (code c =? 33)%nat || (code c =? 63)%nat.

(** [re.split(sep+, s)] for a class [sep] of characters: the pieces between
    the maximal runs of separators.  [cur] is the piece being read and
    [in_sep] tells that the last character was a separator. *)
Fixpoint split_runs (sep : ascii -> bool) (s cur : string) (in_sep : bool)
  : list string :=
  match s with
  | EmptyString => [cur]
  | String c s' =>
      if sep c
      then if in_sep then split_runs sep s' EmptyString true
           else cur :: split_runs sep s' EmptyString true
      else split_runs sep s' (cur ++ String c EmptyString) false
  end.

(** [re.split(r'[.!?]+', text)] *)
Definition split_sentences (text : string) : list string :=
  split_runs is_terminator text "" false.

Definition is_newline (c : ascii) : bool := (code c =? 10)%nat.

(** [s.split('\n\n')]: cut at each blank line, found from the left. *)
Fixpoint split_blank (s cur : string) : list string :=
  match s with
  | EmptyString => [cur]
  | String c s' =>
      match s' with
      | EmptyString => [cur ++ String c EmptyString]
      | String d s'' =>
          if is_newline c && is_newline d then cur :: split_blank s'' EmptyString
          else split_blank s' (cur ++ String c EmptyString)
      end
  end.

Definition split_paragraphs (text : string) : list string := split_blank text "".

(** [_calculate_statistics] *)
Definition calculate_statistics (text : string) : gmap string pyval :=
  list_to_map
    [ ("char_count", PInt (Z.of_nat (len text)));
      ("word_count", PInt (Z.of_nat (length (split text))));
      ("sentence_count", PInt (Z.of_nat (length (split_sentences text))));
      ("paragraph_count", PInt (Z.of_nat (length (split_paragraphs text)))) ].

(** [s.lstrip()], [s.rstrip()], [s.strip()] *)
Fixpoint lstrip (s : string) : string :=
  match s with
  | EmptyString => EmptyString
  | String c s' => if is_space c then lstrip s' else s
  end.

Fixpoint rstrip (s : string) : string :=
  match s with
  | EmptyString => EmptyString
  | String c s' =>
      match rstrip s' with
      | EmptyString => if is_space c then EmptyString else String c EmptyString
      | r => String c r
      end
  end.

Definition strip (s : string) : string := rstrip (lstrip s).

(** Every character of [s] is whitespace. *)
Fixpoint blank (s : string) : bool :=
  match s with
  | EmptyString => true
  | String c s' => is_space c && blank s'
  end.

(** [QueryRequest.validate_query]; [None] is the [ValueError]. *)
Definition validate_query (v : string) : option string :=
  match strip v with
  | EmptyString => None
  | q => Some q
  end.

End Statistics.

(** ** The cache layer: what a call stores and reads back *)
Module CacheSpec.
Import Cache.

(** What [get] answers for the entry [stored] of a key: the decoded text,
    and [None] for no entry, an empty text or a text that does not decode. *)
Definition decoded {rt : Runtime} (stored : option string) : pyval :=
  match stored with
  | Some (String a v) =>
      match json_loads (String a v) with
      | Ok x => x
      | Raise _ => PNone
      end
  | Some EmptyString | None => PNone
  end.

(** [ttl or self.ttl] *)
Definition effective_ttl (ttl_arg : option Z) (default_ttl : Z) : Z :=
  match ttl_arg with
  | Some t => if (t =? 0)%Z then default_ttl else t
  | None => default_ttl
  end.

(** The manager after a [connect] that went through. *)
Definition connected (default_ttl : Z) : CacheManager := mkCache (Some tt) true default_ttl.

(** The server after the command [e] went through, with entries [entries]. *)
Definition after (e : list event) (entries : gmap string string) (s : server) : server :=
  mkServer entries [] (log s ++ e).

End CacheSpec.

(** ** Further sample runtimes *)
Module Examples.
Import Text.

Definition quote_mark : ascii := "034"%char.

(** A stand-in for [json] on strings and [None] that reads back what it
    wrote: a string is written behind a quote mark, [None] as null. *)
Definition sample_dumps (v : pyval) : result string :=
  match v with
  | PNone => Ok "null"
  | PStr t => Ok (String quote_mark t)
  | _ => Raise TypeError
  end.

Definition sample_loads (t : string) : result pyval :=
  if String.eqb t "null" then Ok PNone
  else match t with
       | String c rest =>
           if Ascii.eqb c quote_mark then Ok (PStr rest) else Raise (ExternalError "json")
       | EmptyString => Raise (ExternalError "json")
       end.

Definition codec_runtime : Cache.Runtime := {|
  Cache.repr := Samples.sample_repr;
  Cache.md5_hexdigest := fun data => "md5:" ++ data;
  Cache.json_dumps := sample_dumps;
  Cache.json_loads := sample_loads
|}.

(** The call [search(top_k=5)] of a function wrapped by [cached("query")]. *)
Definition query_kwargs : list (string * pyval) := [("top_k", PInt 5)].

Definition query_key : string :=
  @Cache.generate_key codec_runtime "query" [] query_kwargs.

(** Servers that answer every command: without entries, with the answer
    stored under the key of the call, and with null stored there. *)
Definition cold_server : Cache.server := Cache.mkServer ∅ [] [].
Definition warm_server : Cache.server :=
  Cache.mkServer {[ query_key := String quote_mark "forty-two" ]} [] [].
Definition null_server : Cache.server :=
  Cache.mkServer {[ query_key := "null" ]} [] [].

(** The defaults with the cache switched off. *)
Definition cache_off : Config.Settings :=
  Config.mkSettings 1000 200 50 [".pdf"; ".docx"; ".txt"; ".md"; ".pptx"]
    "redis://localhost:6379/0" 3600 false.

(** A wrapped function that raises. *)
Definition failing_fn : M Cache.server pyval := raise OSError.

End Examples.

(** ** The processor: the keys of the dictionary literal of
    [_enrich_metadata] *)
Module ProcessorSpec.

Definition generated_keys : list string :=
  [ "source"; "file_name"; "file_type"; "file_hash"; "chunk_index"; "total_chunks";
    "processed_at"; "chunk_size" ].

End ProcessorSpec.

(** ** The routes: what a request ends in *)
Module Api.
Import Text Config Processor.

(** A route returns its response model or raises [HTTPException]. *)
Inductive http (A : Type) : Type :=
| Respond (a : A)
| HTTPException (status_code : Z).
Arguments Respond {A} a.
Arguments HTTPException {A} status_code.

(** *** [query_documents] *)
Record QueryRequest : Type := mkQueryRequest {
  query : string;
  top_k : option Z;
  include_sources : bool;
  filters : option (gmap string pyval)
}.

(** [QueryResponse], without the request id, the processing time and the
    time stamp. *)
Record QueryResponse : Type := mkQueryResponse {
  response_query : string;
  answer : string;
  sources : option (list (gmap string pyval));
  context_docs_count : nat;
  grounding_score : Q;
  quality_score : Q;
  warnings : list string
}.

(** What the route calls outside the validator: the vector store, the
    chain, and the [Source] model that validates the listed sources. *)
Class QueryEnv : Type := {
  similarity_search :
    string -> option Z -> option (gmap string pyval) -> result (list Document);
  generate_response : string -> list Document -> bool -> result (gmap string pyval);
  build_sources : pyval -> result (list (gmap string pyval))
}.

(** [request.filters or None] *)
Definition filters_or_none (f : option (gmap string pyval)) : option (gmap string pyval) :=
  match f with
  | Some m => if decide (m = ∅) then None else Some m
  | None => None
  end.

(** The [sources] of the response: built when they are asked for and the
    chain has listed them. *)
Definition response_sources `{QueryEnv} (request : QueryRequest)
    (response : gmap string pyval) : result (option (list (gmap string pyval))) :=
  if include_sources request
  then match response !! "sources" with
       | Some listed =>
           match build_sources listed with
           | Ok l => Ok (Some l)
           | Raise e => Raise e
           end
       | None => Ok None
       end
  else Ok None.

(** [query_documents].  [HTTPException] passes the outer handler; every
    other exception becomes status 500. *)
Definition query_documents `{QueryEnv} (request : QueryRequest) : http QueryResponse :=
  match similarity_search (query request) (top_k request)
          (filters_or_none (filters request)) with
  | Raise _ => HTTPException 500
  | Ok [] => HTTPException 404
  | Ok context_docs =>
      match generate_response (query request) context_docs (include_sources request) with
      | Raise _ => HTTPException 500
      | Ok response =>
          match Validator.validate response context_docs with
          | Raise _ => HTTPException 500
          | Ok validation_result =>
              match response_sources request response with
              | Raise _ => HTTPException 500
              | Ok sources =>
                  match response !! "answer" with
                  | Some (PStr answer) =>
                      Respond
                        (mkQueryResponse (query request) answer sources
                           (length context_docs)
                           (Validator.grounding_score validation_result)
                           (Validator.quality_score validation_result)
                           (Validator.warnings validation_result))
                  | _ => HTTPException 500
                  end
              end
          end
      end
  end.








End Api.

(** * Properties *)

(** ** The response validator *)
Module ValidatorProofs.
Import Text Validator.
Local Open Scope Q_scope.

(** The loop of [_check_grounding] adds, to whatever it starts from, the
    overlaps chunk by chunk and the size of the answer set once per chunk. *)
Lemma fold_grounding_step (answer_lower : string) (docs : list Document) (o t : nat) :
  fold_left (grounding_step answer_lower) docs (o, t) =
  ((o + spec_overlap (word_set answer_lower) docs)%nat,
   (t + size (word_set answer_lower) * length docs)%nat).
Proof.
  revert o t. induction docs as [|d docs IH]; intros o t; simpl.
  - f_equal; lia.
  - destruct (grounding_step answer_lower (o, t) d) as [o' t'] eqn:E.
    rewrite IH. unfold grounding_step in E. simpl in E.
    injection E as <- <-. f_equal; lia.
Qed.

Lemma check_grounding_spec (answer : string) (docs : list Document) :
  check_grounding answer docs = spec_grounding answer docs.
Proof.
  unfold check_grounding, spec_grounding.
  destruct docs as [|d docs]; [reflexivity|].
  rewrite fold_grounding_step. cbn [fst snd Nat.add].
  replace (length (d :: docs) =? 0)%nat with false by reflexivity.
  reflexivity.
Qed.

Lemma Qltb_lt (x y : Q) : Qltb x y = true <-> x < y.
Proof.
  unfold Qltb. rewrite Qlt_alt. destruct (x ?= y); split; congruence.
Qed.

Lemma validate_answer_grounding (answer : string) (docs : list Document) :
  grounding_score (validate_answer answer docs) = check_grounding answer docs.
Proof.
  unfold validate_answer. repeat case_match; reflexivity.
Qed.

Lemma validate_answer_quality (answer : string) (docs : list Document) :
  quality_score (validate_answer answer docs) =
  calculate_quality_score answer (check_grounding answer docs).
Proof.
  unfold validate_answer. repeat case_match; reflexivity.
Qed.

Lemma validate_answer_is_valid (answer : string) (docs : list Document) :
  is_valid (validate_answer answer docs) = true.
Proof.
  unfold validate_answer. repeat case_match; reflexivity.
Qed.

Lemma append_warning_keeps (w w' : string) (r : validation_result) :
  w ∈ warnings r -> w ∈ warnings (append_warning w' r).
Proof. intros Hin. simpl. apply elem_of_app. by left. Qed.

Lemma low_grounding_warned (answer : string) (docs : list Document) :
  check_grounding answer docs < 1 # 2 ->
  "Low grounding score" ∈ warnings (validate_answer answer docs).
Proof.
  intros Hlt. apply Qltb_lt in Hlt. unfold validate_answer.
  rewrite Hlt. cbn [set_quality warnings].
  match goal with
  | |- _ ∈ warnings (if ?b then append_warning ?w ?r else ?r) =>
      assert (Hr : "Low grounding score" ∈ warnings r);
      [| destruct b; [by apply append_warning_keeps | exact Hr]]
  end.
  cbn [append_warning warnings]. apply elem_of_app. right. apply list_elem_of_singleton.
  reflexivity.
Qed.

(** C1.  [_check_grounding] computes the grounding score as specified: with
    [A] the word set of the lower-cased answer, the loop accumulates the sum
    of the sizes of the intersections of [A] with the word set of each
    lower-cased chunk, and [|A|] times the number of chunks; the score is 0
    for an empty context or a zero total and [min(overlap/total, 1)]
    otherwise.  The chunk "the cat sat on the mat" grounds the answer
    "the cat sat" with score 1, and a score below 1/2 puts the warning
    "Low grounding score" in the result of [validate]. *)
Theorem grounding_score_algorithm (answer : string) (context_docs : list Document) :
  check_grounding answer context_docs = spec_grounding answer context_docs
  /\ fold_left (grounding_step (lower answer)) context_docs (0, 0)%nat =
     (spec_overlap (word_set (lower answer)) context_docs,
      (size (word_set (lower answer)) * length context_docs)%nat)
  /\ grounding_score (validate_answer answer context_docs) =
     check_grounding answer context_docs
  /\ (forall ref,
        grounding_score
          (validate_answer "the cat sat" [mkDocument "the cat sat on the mat" ref]) == 1)
  /\ (grounding_score (validate_answer answer context_docs) < 1 # 2 ->
      "Low grounding score" ∈ warnings (validate_answer answer context_docs)).
Proof.
  split; [apply check_grounding_spec|].
  split; [apply fold_grounding_step|].
  split; [apply validate_answer_grounding|].
  split.
  - intros ref. rewrite validate_answer_grounding. vm_compute. reflexivity.
  - rewrite validate_answer_grounding. apply low_grounding_warned.
Qed.

(** The theorem at the answer "maybe" with one unrelated chunk. *)
Lemma grounding_score_algorithm_witness :
  "Low grounding score" ∈ warnings (validate_answer "maybe" [mkDocument "the cat" 0]).
Proof.
  apply (grounding_score_algorithm "maybe" [mkDocument "the cat" 0]).
  vm_compute. reflexivity.
Defined.

Lemma clamp_bounds (x : Q) : 0 <= Qmax 0 (Qmin 1 x) <= 1.
Proof.
  split.
  - apply Q.le_max_l.
  - apply Q.max_lub; [discriminate | apply Q.le_min_l].
Qed.

(** C3.  The quality score that [validate] returns is the grounding score,
    plus 0.2 for a word count in [50, 500], minus 0.3 for a word count
    below 20 or above 1000, clamped to [0, 1]; the penalties that the
    length checks subtracted from the intermediate value are overwritten. *)
Theorem quality_score_formula (answer : string) (context_docs : list Document)
    (grounding : Q) :
  calculate_quality_score answer grounding ==
    spec_quality (length (split answer)) grounding
  /\ 0 <= calculate_quality_score answer grounding <= 1
  /\ quality_score (validate_answer answer context_docs) =
     calculate_quality_score answer
       (grounding_score (validate_answer answer context_docs)).
Proof.
  split; [|split].
  - unfold calculate_quality_score, spec_quality.
    destruct ((50 <=? _)%nat && _); destruct ((_ <? 20)%nat || _);
      apply Q.max_compat; try reflexivity; apply Q.min_compat; try reflexivity; ring.
  - apply clamp_bounds.
  - rewrite validate_answer_grounding. apply validate_answer_quality.
Qed.

Lemma check_grounding_empty_answer (docs : list Document) :
  check_grounding "" docs = 0.
Proof.
  unfold check_grounding. destruct docs as [|d docs]; [reflexivity|].
  rewrite fold_grounding_step. cbn [snd].
  replace (size (word_set (lower ""))) with 0%nat by (vm_compute; reflexivity).
  reflexivity.
Qed.

Lemma validate_answer_empty (docs : list Document) :
  validate_answer "" docs =
  mkResult true ["Answer too short"; "Low grounding score"] 0 0.
Proof.
  unfold validate_answer. rewrite check_grounding_empty_answer.
  vm_compute. reflexivity.
Qed.

(** C10.  On a response without the key "answer", [validate] does not raise:
    the answer is the empty string, the warnings are "Answer too short" and
    "Low grounding score", both scores are 0 and [is_valid] holds.  Whatever
    result [validate] returns has [is_valid] true. *)
Theorem validate_missing_answer (response : gmap string pyval)
    (context_docs : list Document) :
  (response !! "answer" = None ->
   validate response context_docs =
   Ok (mkResult true ["Answer too short"; "Low grounding score"] 0 0))
  /\ (forall r, validate response context_docs = Ok r -> is_valid r = true).
Proof.
  split.
  - intros Hnone. unfold validate. rewrite Hnone. simpl.
    f_equal. apply validate_answer_empty.
  - intros r. unfold validate.
    destruct (default (PStr "") (response !! "answer")); try discriminate.
    intros [= <-]. apply validate_answer_is_valid.
Qed.

(** The theorem at the response of a generation that produced only a query
    echo, and at a response with an answer. *)
Lemma validate_missing_answer_witness :
  validate {[ "query" := PStr "who?" ]} [mkDocument "the cat" 0] =
    Ok (mkResult true ["Answer too short"; "Low grounding score"] 0 0)
  /\ is_valid (validate_answer "the cat" [mkDocument "the cat" 0]) = true.
Proof.
  split.
  - apply (validate_missing_answer {[ "query" := PStr "who?" ]} [mkDocument "the cat" 0]).
    reflexivity.
  - apply (validate_missing_answer {[ "answer" := PStr "the cat" ]}
             [mkDocument "the cat" 0]).
    reflexivity.
Defined.

End ValidatorProofs.

(** ** The metadata enricher *)
Module EnricherProofs.
Import Text Enricher.

Lemma prefix_app (w s : string) :
  String.prefix w s = true <-> exists post, s = w ++ post.
Proof.
  revert s. induction w as [|a w IH]; intros s.
  - split; [intros _; by exists s | intros _; by destruct s].
  - destruct s as [|b s]; simpl.
    + split; [discriminate | intros [post Hp]; discriminate].
    + destruct (Ascii.ascii_dec a b) as [->|Hne].
      * rewrite IH. split; intros [post Hp]; exists post; [by rewrite Hp | by injection Hp].
      * split; [discriminate | intros [post Hp]; injection Hp; congruence].
Qed.

Lemma str_in_occurs (w s : string) : str_in w s = true <-> occurs w s.
Proof.
  induction s as [|c s IH].
  - cbn [str_in]. rewrite orb_false_r, prefix_app. split.
    + intros [post Hp]. by exists "", post.
    + intros [pre [post Hp]]. destruct pre; [by exists post | discriminate].
  - cbn [str_in]. rewrite orb_true_iff, IH, prefix_app. split.
    + intros [[post Hp] | [pre [post Hp]]].
      * by exists "", post.
      * exists (String c pre), post. simpl. by rewrite Hp.
    + intros [pre [post Hp]]. destruct pre as [|d pre].
      * left. by exists post.
      * right. exists pre, post. simpl in Hp. by injection Hp.
Qed.

Lemma existsb_occurs (ws : list string) (s : string) :
  existsb (fun w => str_in w s) ws = true <-> any_occurs ws s.
Proof.
  unfold any_occurs. induction ws as [|w ws IH]; cbn [existsb].
  - split; [discriminate | intros Hex; inversion Hex].
  - rewrite orb_true_iff, IH, Exists_cons, str_in_occurs. reflexivity.
Qed.

Lemma existsb_not_occurs (ws : list string) (s : string) :
  existsb (fun w => str_in w s) ws = false <-> ~ any_occurs ws s.
Proof.
  rewrite <- existsb_occurs. destruct (existsb _ ws); split; congruence.
Qed.

Lemma lower_app (s t : string) : lower (s ++ t) = lower s ++ lower t.
Proof. induction s as [|c s IH]; simpl; [reflexivity | by rewrite IH]. Qed.

Lemma occurs_lower (w s : string) : occurs w s -> occurs (lower w) (lower s).
Proof.
  intros [pre [post ->]]. exists (lower pre), (lower post).
  by rewrite !lower_app.
Qed.

Lemma identify_content_type_unfold (document : Document) :
  identify_content_type document =
  let content := lower (page_content document) in
  if appears code_keywords content then "code"
  else if appears academic_keywords content then "academic"
  else if appears meeting_keywords content then "meeting_notes"
  else if appears policy_keywords content then "policy"
  else "general".
Proof.
  unfold identify_content_type, appears.
  unfold code_keywords, academic_keywords, meeting_keywords, policy_keywords.
  cbn [existsb]. rewrite !orb_false_r. reflexivity.
Qed.

Lemma identify_content_type_spec (document : Document) :
  spec_content_type (lower (page_content document)) (identify_content_type document).
Proof.
  rewrite identify_content_type_unfold. cbv zeta.
  set (content := lower (page_content document)).
  destruct (appears code_keywords content) eqn:Hc.
  { apply ct_code. by apply existsb_occurs. }
  apply existsb_not_occurs in Hc.
  destruct (appears academic_keywords content) eqn:Ha.
  { apply ct_academic; [exact Hc | by apply existsb_occurs]. }
  apply existsb_not_occurs in Ha.
  destruct (appears meeting_keywords content) eqn:Hm.
  { apply ct_meeting; [exact Hc | exact Ha | by apply existsb_occurs]. }
  apply existsb_not_occurs in Hm.
  destruct (appears policy_keywords content) eqn:Hp.
  { apply ct_policy; [exact Hc | exact Ha | exact Hm | by apply existsb_occurs]. }
  apply existsb_not_occurs in Hp.
  by apply ct_general.
Qed.

Lemma spec_content_type_functional (content l1 l2 : string) :
  spec_content_type content l1 -> spec_content_type content l2 -> l1 = l2.
Proof.
  intros H1 H2. destruct H1; destruct H2; try reflexivity; contradiction.
Qed.

(** C7.  The label of [_identify_content_type] is the one the priority
    order gives on the lower-cased text: "code" when a code keyword appears,
    else "academic", else "meeting_notes", else "policy", else "general".
    It is the only such label and one of the five, and a text in which both
    "def " and "policy" appear is labelled "code". *)
Theorem content_type_first_match (document : Document) :
  spec_content_type (lower (page_content document)) (identify_content_type document)
  /\ (forall label,
        spec_content_type (lower (page_content document)) label ->
        label = identify_content_type document)
  /\ identify_content_type document ∈
       ["code"; "academic"; "meeting_notes"; "policy"; "general"]
  /\ (occurs "def " (page_content document) ->
      occurs "policy" (page_content document) ->
      identify_content_type document = "code").
Proof.
  pose proof (identify_content_type_spec document) as Hspec.
  split; [exact Hspec|]. split; [|split].
  - intros label Hl. exact (spec_content_type_functional _ _ _ Hl Hspec).
  - destruct Hspec; set_solver.
  - intros Hdef _. apply occurs_lower in Hdef.
    symmetry. apply (spec_content_type_functional _ _ _ (ct_code _ ltac:(
      unfold any_occurs, code_keywords; apply Exists_cons_tl, Exists_cons_hd; exact Hdef))
      Hspec).
Qed.

(** The theorem at a chunk that holds a Python definition and the word
    "policy". *)
Lemma content_type_first_match_witness :
  identify_content_type (mkDocument "policy: def f(x): return x" 0) = "code".
Proof.
  apply (content_type_first_match (mkDocument "policy: def f(x): return x" 0)).
  - exists "policy: ", "f(x): return x". reflexivity.
  - apply str_in_occurs. reflexivity.
Defined.

End EnricherProofs.

Module ExtractProofs.
Import Text Enricher.

Section WithRuntime.
Context {rt : Runtime}.
Variable text : string.

Lemma extract_step_lookup (entities : gmap string (list string))
    (item : string * string) (ty : string) :
  extract_step text entities item !! ty =
  if decide (fst item = ty) then stored text (snd item) (entities !! ty)
  else entities !! ty.
Proof.
  unfold extract_step, stored. destruct (re_findall (snd item) text) as [|m ms].
  - by case_decide.
  - rewrite lookup_insert. by case_decide.
Qed.

Lemma extract_fold_other (pats : list (string * string))
    (entities : gmap string (list string)) (ty : string) :
  ty ∉ pats.*1 ->
  fold_left (extract_step text) pats entities !! ty = entities !! ty.
Proof.
  revert entities. induction pats as [|item pats IH]; intros entities Hnot; [done|].
  cbn [fold_left]. rewrite fmap_cons, not_elem_of_cons in Hnot.
  destruct Hnot as [Hne Hnot]. rewrite IH by exact Hnot.
  rewrite extract_step_lookup. by case_decide.
Qed.

Lemma extract_fold_found (pats : list (string * string))
    (entities : gmap string (list string)) (ty pattern : string) :
  NoDup pats.*1 ->
  (ty, pattern) ∈ pats ->
  fold_left (extract_step text) pats entities !! ty =
  stored text pattern (entities !! ty).
Proof.
  revert entities. induction pats as [|item pats IH]; intros entities Hnd Hin.
  - by apply not_elem_of_nil in Hin.
  - rewrite fmap_cons, NoDup_cons in Hnd. destruct Hnd as [Hfresh Hnd].
    cbn [fold_left]. apply elem_of_cons in Hin as [<- | Hin].
    + rewrite extract_fold_other by exact Hfresh.
      rewrite extract_step_lookup. by rewrite decide_True.
    + rewrite IH by assumption. rewrite extract_step_lookup.
      rewrite decide_False; [done|].
      intros Heq. apply Hfresh. rewrite Heq.
      apply list_elem_of_fmap. by exists (ty, pattern).
Qed.

End WithRuntime.

Lemma entity_types_distinct : NoDup entity_patters.*1.
Proof. apply (bool_decide_unpack _). vm_compute. exact I. Qed.

(** C8.  For each of the four patterns, run on its own against the text:
    when it matches nowhere, its entity type is absent from the result;
    otherwise the type maps to a duplicate-free list holding exactly the
    matches.  No other key is present.  This holds whatever order
    [list(set(...))] lists a set in. *)
Theorem extract_entities_dedup {rt : Runtime} (text : string) :
  (forall X : gset string, set_to_list X ≡ₚ elements X) ->
  (forall ty pattern,
     (ty, pattern) ∈ entity_patters ->
     (re_findall pattern text = [] -> extract_entities text !! ty = None)
     /\ (re_findall pattern text <> [] ->
         exists l, extract_entities text !! ty = Some l
                   /\ NoDup l
                   /\ forall x, x ∈ l <-> x ∈ re_findall pattern text))
  /\ (forall ty, ty ∉ ["email"; "phone"; "date"; "url"] ->
                 extract_entities text !! ty = None).
Proof.
  intros Hperm. split.
  - intros ty pattern Hin. unfold extract_entities.
    rewrite (extract_fold_found text _ _ ty pattern entity_types_distinct Hin).
    unfold stored. rewrite lookup_empty. split.
    + intros ->. reflexivity.
    + intros Hne. destruct (re_findall pattern text) as [|m ms]; [done|].
      eexists. split; [reflexivity|]. split.
      * rewrite Hperm. apply NoDup_elements.
      * intros x. rewrite Hperm, elem_of_elements, elem_of_list_to_set. reflexivity.
  - intros ty Hnot. unfold extract_entities.
    rewrite extract_fold_other by exact Hnot. apply lookup_empty.
Qed.

(** The theorem at a text with the same address twice. *)
Lemma extract_entities_dedup_witness :
  exists l, @extract_entities Samples.enricher_runtime
              "see http://a.example and http://a.example" !! "url" = Some l
            /\ NoDup l
            /\ forall x, x ∈ l <->
                 x ∈ @re_findall Samples.enricher_runtime "https?://[^\s]+"
                       "see http://a.example and http://a.example".
Proof.
  apply (@extract_entities_dedup Samples.enricher_runtime
           "see http://a.example and http://a.example").
  - intros X. reflexivity.
  - vm_compute. set_solver.
  - vm_compute. discriminate.
Defined.

End ExtractProofs.

(** ** Stateful code: how results come about *)
Module MonadFacts.

Section Facts.
Context {S A B : Type}.

Lemma bind_run (m : M S A) (f : A -> M S B) (st : S) :
  (m ≫= f) st =
  match m st with
  | (Ok a, st') => f a st'
  | (Raise e, st') => (Raise e, st')
  end.
Proof. reflexivity. Qed.

Lemma bind_ok (m : M S A) (f : A -> M S B) (st st' : S) (b : B) :
  (m ≫= f) st = (Ok b, st') <->
  exists a st1, m st = (Ok a, st1) /\ f a st1 = (Ok b, st').
Proof.
  rewrite bind_run. destruct (m st) as [[a|e] st1]; split.
  - intros Hf. by exists a, st1.
  - intros (a' & st1' & [= -> ->] & Hf). exact Hf.
  - discriminate.
  - intros (a' & st1' & [=] & _).
Qed.

Lemma bind_raise (m : M S A) (f : A -> M S B) (st st' : S) (e : exn) :
  (m ≫= f) st = (Raise e, st') <->
  m st = (Raise e, st') \/
  exists a st1, m st = (Ok a, st1) /\ f a st1 = (Raise e, st').
Proof.
  rewrite bind_run. destruct (m st) as [[a|e0] st1]; split.
  - intros Hf. right. by exists a, st1.
  - intros [[=] | (a' & st1' & [= -> ->] & Hf)]. exact Hf.
  - intros [= -> ->]. by left.
  - intros [[= -> ->] | (a' & st1' & [=] & _)]. reflexivity.
Qed.

End Facts.

Lemma try_except_run {S A} (body : M S A) (handler : exn -> M S A) (st : S) :
  try_except body handler st =
  match body st with
  | (Ok a, st') => (Ok a, st')
  | (Raise e, st') => handler e st'
  end.
Proof. reflexivity. Qed.

End MonadFacts.

(** ** The document processor *)
Module ProcessorProofs.
Import Text Config Processor MonadFacts.

(** The blocks read from a file and absorbed by the hash object make up
    the file. *)
Lemma hash_loop_absorbs (f h : list byte) : hash_loop f h = (h ++ f)%list.
Proof.
  funelim (hash_loop f h).
  - clear Heqcall. destruct f as [|c f]; [by rewrite app_nil_r | discriminate].
  - rewrite H, <- app_assoc, <- e'. by rewrite take_drop.
Qed.

Section WithEnv.
Context `{Env}.

Lemma Qgtb_too_large (n : nat) :
  Qgtb (Z.of_nat n # 1048576) (inject_Z (MAX_DOCUMENT_SIZE_MB settings)) = true <->
  (MAX_DOCUMENT_SIZE_MB settings * 1048576 < Z.of_nat n)%Z.
Proof.
  unfold Qgtb. rewrite <- Z.gt_lt_iff.
  change ((Z.of_nat n # 1048576 ?= inject_Z (MAX_DOCUMENT_SIZE_MB settings))%Q)
    with (Z.of_nat n * 1 ?= MAX_DOCUMENT_SIZE_MB settings * 1048576)%Z.
  rewrite Z.mul_1_r. unfold Z.gt.
  destruct (Z.of_nat n ?= MAX_DOCUMENT_SIZE_MB settings * 1048576)%Z;
    split; congruence.
Qed.

(** [_validate_file] leaves the world as it is, and raises exactly for a
    missing file, an extension off the list, or a file over the limit. *)
Lemma validate_file_run (file_path : string) (w : world) :
  (validate_file file_path w = (Raise DocumentProcessingError, w)
   /\ (missing file_path \/ unsupported file_path \/ too_large file_path))
  \/ (validate_file file_path w = (Ok tt, w)
      /\ ~ missing file_path /\ ~ unsupported file_path /\ ~ too_large file_path).
Proof.
  unfold validate_file, missing, unsupported, too_large.
  destruct (fs !! file_path) as [data|] eqn:Hfs.
  2: { left. split; [reflexivity | by left]. }
  destruct (bool_decide (suffix file_path ∈ SUPPORTED_FORMATS settings)) eqn:Hs;
    cbn [negb].
  2: { left. split; [reflexivity|]. right. left. by apply bool_decide_eq_false in Hs. }
  apply bool_decide_eq_true in Hs.
  destruct (Qgtb _ _) eqn:Hq.
  - left. split; [reflexivity|]. right. right. exists data.
    split; [reflexivity | by apply Qgtb_too_large].
  - right. split; [reflexivity|]. split; [discriminate|]. split; [by intros Hn|].
    intros (data' & [= <-] & Hlt). apply Qgtb_too_large in Hlt. congruence.
Qed.

Lemma calculate_file_hash_run (file_path : string) (data : list byte) (w : world) :
  fs !! file_path = Some data ->
  calculate_file_hash file_path w = (Ok (sha256_hexdigest data), w).
Proof.
  intros Hfs. unfold calculate_file_hash. rewrite Hfs, hash_loop_absorbs.
  reflexivity.
Qed.

(** The loop of [_enrich_metadata] does not raise, touches only the
    dictionaries of the chunks, and leaves in the dictionary of the chunk
    at position [j] the fields generated for index [i + j], when the chunks
    have dictionaries of their own. *)
Lemma enrich_loop_run (file_path file_hash : string) (total : nat)
    (custom : gmap string pyval) (chunks : list Document) :
  forall (i : nat) (w : world),
  exists w',
    enrich_loop file_path file_hash total custom i chunks w = (Ok tt, w')
    /\ events w' = events w
    /\ (forall ref, ref ∉ map metadata chunks -> store w' !! ref = store w !! ref)
    /\ (NoDup (map metadata chunks) ->
        forall j chunk, chunks !! j = Some chunk ->
        exists processed_at,
          store w' !! metadata chunk =
          Some (chunk_fields file_path file_hash (i + j) total processed_at chunk custom
                ∪ default ∅ (store w !! metadata chunk))).
Proof.
  induction chunks as [|chunk rest IH]; intros i w.
  - exists w. split; [reflexivity|]. split; [reflexivity|]. split; [done|].
    intros _ j c Hj. by rewrite lookup_nil in Hj.
  - cbn [enrich_loop]. rewrite bind_run. unfold now at 1.
    rewrite bind_run. unfold update_metadata at 1, modify at 1.
    cbn [store tick events].
    match goal with |- context [enrich_loop _ _ _ _ _ rest ?x] => set (w2 := x) end.
    destruct (IH (S i) w2) as (w' & Hrun & Hev & Hother & Hdone).
    exists w'. split; [exact Hrun|]. split; [by rewrite Hev|]. split.
    + intros ref Hnot. cbn [map] in Hnot. apply not_elem_of_cons in Hnot as [Hne Hnot].
      rewrite Hother by exact Hnot. subst w2. cbn [store].
      by rewrite lookup_insert_ne.
    + intros Hnd j c Hj. cbn [map] in Hnd. apply NoDup_cons in Hnd as [Hfresh Hnd].
      destruct j as [|j]; cbn in Hj.
      * injection Hj as <-. exists (isoformat (tick w)).
        rewrite Hother by exact Hfresh. subst w2. cbn [store].
        rewrite lookup_insert_eq. by rewrite Nat.add_0_r.
      * destruct (Hdone Hnd j c Hj) as (ts & Hts). exists ts.
        rewrite Hts. subst w2. cbn [store].
        rewrite lookup_insert_ne.
        { by replace (S i + j)%nat with (i + S j)%nat by lia. }
        intros Heq. apply Hfresh. rewrite Heq.
        apply list_elem_of_fmap. exists c. split; [done|].
        by apply list_elem_of_lookup_2 in Hj.
Qed.

Lemma chunk_fields_lookup (file_path file_hash : string) (i total : nat)
    (processed_at : string) (chunk : Document) (custom old : gmap string pyval) :
  custom !! "chunk_index" = None ->
  custom !! "total_chunks" = None ->
  custom !! "file_hash" = None ->
  let md := chunk_fields file_path file_hash i total processed_at chunk custom ∪ old in
  md !! "chunk_index" = Some (PInt (Z.of_nat i))
  /\ md !! "total_chunks" = Some (PInt (Z.of_nat total))
  /\ md !! "file_hash" = Some (PStr file_hash).
Proof.
  intros Hi Ht Hh md. subst md. unfold chunk_fields.
  repeat split; (erewrite lookup_union_Some_l; [reflexivity|]);
    (rewrite lookup_union_r by assumption); reflexivity.
Qed.

(** [process_document], stage by stage: whatever a stage raises comes out
    as [DocumentProcessingError]. *)
Lemma process_document_run (file_path : string) (custom : option (gmap string pyval))
    (w : world) :
  process_document file_path custom w =
  match validate_file file_path w with
  | (Raise _, w') => (Raise DocumentProcessingError, w')
  | (Ok _, w0) =>
      match load_document file_path w0 with
      | (Raise _, w') => (Raise DocumentProcessingError, w')
      | (Ok documents, w1) =>
          match split_documents documents w1 with
          | (Raise _, w') => (Raise DocumentProcessingError, w')
          | (Ok chunks, w2) =>
              match enrich_metadata chunks file_path (default ∅ custom) w2 with
              | (Raise _, w') => (Raise DocumentProcessingError, w')
              | (Ok out, w3) => (Ok out, w3)
              end
          end
      end
  end.
Proof.
  unfold process_document. rewrite try_except_run, !bind_run.
  destruct (validate_file file_path w) as [[[]|e] w0]; [|reflexivity].
  rewrite bind_run.
  destruct (load_document file_path w0) as [[documents|e] w1]; [|reflexivity].
  rewrite bind_run.
  destruct (split_documents documents w1) as [[chunks|e] w2]; [|reflexivity].
  destruct (enrich_metadata chunks file_path (default ∅ custom) w2) as [[out|e] w3];
    reflexivity.
Qed.

Lemma load_document_run (file_path : string) (w : world) :
  load_document file_path w =
  match loaders !! suffix file_path with
  | None => (Raise DocumentProcessingError, w)
  | Some cls =>
      run_loader cls file_path
        (mkWorld (store w) (tick w) (events w ++ [ELoad cls file_path]))
  end.
Proof. unfold load_document. by destruct (loaders !! suffix file_path). Qed.

Lemma split_documents_run (documents : list Document) (w : world) :
  split_documents documents w =
  run_splitter documents (mkWorld (store w) (tick w) (events w ++ [ESplit])).
Proof. reflexivity. Qed.

(** [_enrich_metadata] on a file that exists returns the chunks it was
    given. *)
Lemma enrich_metadata_run (chunks : list Document) (file_path : string)
    (custom : gmap string pyval) (data : list byte) (w : world) :
  fs !! file_path = Some data ->
  exists w',
    enrich_metadata chunks file_path custom w = (Ok chunks, w')
    /\ enrich_loop file_path (sha256_hexdigest data) (length chunks) custom 0 chunks w
       = (Ok tt, w').
Proof.
  intros Hfs. unfold enrich_metadata.
  destruct (enrich_loop_run file_path (sha256_hexdigest data) (length chunks) custom
              chunks 0%nat w) as (w' & Hrun & _).
  exists w'. split; [|exact Hrun].
  rewrite bind_run, (calculate_file_hash_run _ data) by exact Hfs.
  rewrite bind_run, Hrun. reflexivity.
Qed.

End WithEnv.

(** C4.  When [process_document] returns chunks, the file exists and, for
    custom metadata without the keys "chunk_index", "total_chunks" and
    "file_hash" and chunks that own their metadata dictionaries, the chunk
    at position [i] carries chunk_index [i], total_chunks the number of
    chunks, and file_hash the SHA-256 digest of the bytes of the file. *)
Theorem chunk_index_and_hash `{Env} (file_path : string)
    (custom : option (gmap string pyval)) (w w' : world) (chunks : list Document) :
  default ∅ custom !! "chunk_index" = None ->
  default ∅ custom !! "total_chunks" = None ->
  default ∅ custom !! "file_hash" = None ->
  process_document file_path custom w = (Ok chunks, w') ->
  NoDup (map metadata chunks) ->
  exists data,
    fs !! file_path = Some data
    /\ forall i chunk,
         chunks !! i = Some chunk ->
         exists md,
           store w' !! metadata chunk = Some md
           /\ md !! "chunk_index" = Some (PInt (Z.of_nat i))
           /\ md !! "total_chunks" = Some (PInt (Z.of_nat (length chunks)))
           /\ md !! "file_hash" = Some (PStr (sha256_hexdigest data)).
Proof.
  intros Hi Ht Hh Hrun Hnd. rewrite process_document_run in Hrun.
  destruct (validate_file_run file_path w) as [[Hv _] | (Hv & Hex & _)];
    rewrite Hv in Hrun; [discriminate|].
  unfold missing in Hex. destruct (fs !! file_path) as [data|] eqn:Hfs; [|done].
  exists data. split; [reflexivity|].
  destruct (load_document file_path w) as [[documents|e] w1]; [|discriminate].
  destruct (split_documents documents w1) as [[chunks0|e] w2]; [|discriminate].
  destruct (enrich_metadata_run chunks0 file_path (default ∅ custom) data w2 Hfs)
    as (w3 & Henrich & Hloop).
  rewrite Henrich in Hrun. injection Hrun as -> ->.
  destruct (enrich_loop_run file_path (sha256_hexdigest data) (length chunks)
              (default ∅ custom) chunks 0%nat w2) as (w'' & Hrun' & _ & _ & Hdone).
  rewrite Hloop in Hrun'. injection Hrun' as <-.
  intros i chunk Hchunk. destruct (Hdone Hnd i chunk Hchunk) as (ts & Hts).
  eexists. split; [exact Hts|]. cbn [Nat.add].
  by apply chunk_fields_lookup.
Qed.

(** The theorem at a three-byte text file that the splitter cuts in two. *)
Lemma chunk_index_and_hash_witness :
  exists data,
    Samples.sample_fs !! "docs/notes.txt" = Some data
    /\ forall i chunk,
         [mkDocument "aa" 1; mkDocument "a" 2] !! i = Some chunk ->
         exists md,
           store (snd (@process_document Samples.sample_env "docs/notes.txt" None
                         Samples.empty_world)) !! metadata chunk = Some md
           /\ md !! "chunk_index" = Some (PInt (Z.of_nat i))
           /\ md !! "total_chunks" = Some (PInt 2)
           /\ md !! "file_hash" = Some (PStr ("sha256:" ++ string_of_list_byte data)).
Proof.
  apply (@chunk_index_and_hash Samples.sample_env "docs/notes.txt" None
           Samples.empty_world).
  - reflexivity.
  - reflexivity.
  - reflexivity.
  - vm_compute. reflexivity.
  - apply (bool_decide_unpack _). vm_compute. exact I.
Defined.

Lemma pptx_has_no_loader : loaders !! ".pptx" = None.
Proof. reflexivity. Qed.

(** C5, as the code has it.  Whatever [process_document] raises is
    [DocumentProcessingError].  It raises exactly when the file is missing,
    its extension is off the list, it is over the size limit, no loader is
    mapped to its extension, or the loader or the splitter raises.  In the
    first three cases it raises with the world untouched, so before any
    loader is called.  A ".pptx" file always fails. *)
Theorem process_document_failures `{Env} (file_path : string)
    (custom : option (gmap string pyval)) (w : world) :
  (forall e w', process_document file_path custom w = (Raise e, w') ->
                e = DocumentProcessingError)
  /\ (fails file_path custom w <->
      missing file_path \/ unsupported file_path \/ too_large file_path \/
      no_loader file_path \/ loader_raises file_path w \/ splitter_raises file_path w)
  /\ (missing file_path \/ unsupported file_path \/ too_large file_path ->
      process_document file_path custom w = (Raise DocumentProcessingError, w))
  /\ (suffix file_path = ".pptx" -> fails file_path custom w).
Proof.
  assert (Hcases :
    (process_document file_path custom w = (Raise DocumentProcessingError, w)
     /\ (missing file_path \/ unsupported file_path \/ too_large file_path))
    \/ (~ missing file_path /\ ~ unsupported file_path /\ ~ too_large file_path
        /\ ((no_loader file_path
             /\ process_document file_path custom w = (Raise DocumentProcessingError, w))
            \/ (~ no_loader file_path /\ ~ loader_raises file_path w
                /\ ~ splitter_raises file_path w
                /\ exists out w', process_document file_path custom w = (Ok out, w'))
            \/ (~ no_loader file_path
                /\ (loader_raises file_path w \/ splitter_raises file_path w)
                /\ exists w', process_document file_path custom w =
                              (Raise DocumentProcessingError, w'))))).
  { rewrite process_document_run.
    destruct (validate_file_run file_path w) as [[Hv Hwhy] | (Hv & Hm & Hu & Hl)];
      rewrite Hv; [by left|].
    right. split; [exact Hm|]. split; [exact Hu|]. split; [exact Hl|].
    rewrite load_document_run. unfold no_loader, loader_raises, splitter_raises.
    destruct (loaders !! suffix file_path) as [cls|] eqn:Hcls; [|by left].
    right.
    destruct (run_loader cls file_path _) as [[documents|e] w1] eqn:Hload.
    2: { right. split; [discriminate|]. split; [|by exists w1].
         left. by exists cls, e, w1. }
    rewrite split_documents_run.
    destruct (run_splitter documents _) as [[chunks|e] w2] eqn:Hsplit.
    2: { right. split; [discriminate|]. split; [|by exists w2].
         right. by exists cls, documents, w1, e, w2. }
    left. split; [discriminate|]. split.
    { intros (cls' & e & w1' & [= <-] & Hr). congruence. }
    split.
    { intros (cls' & documents' & w1' & e & w2' & [= <-] & Hr & Hs).
      rewrite Hload in Hr. injection Hr as <- <-. congruence. }
    unfold missing in Hm. destruct (fs !! file_path) as [data|] eqn:Hfs; [|done].
    destruct (enrich_metadata_run chunks file_path (default ∅ custom) data w2 Hfs)
      as (w3 & Henrich & _).
    rewrite Henrich. by exists chunks, w3. }
  unfold fails. split; [|split; [|split]].
  - intros e w' Hrun.
    destruct Hcases as [[Hr _] | (_ & _ & _ & [[_ Hr] | [(_ & _ & _ & out & w1 & Hr)
                                                       | (_ & _ & w1 & Hr)]])];
      rewrite Hr in Hrun; congruence.
  - split.
    + intros [w' Hrun].
      destruct Hcases as [[_ Hwhy] | (_ & _ & _ & [[Hno _] | [(_ & _ & _ & out & w1 & Hr)
                                                          | (_ & Hwhy & _)]])].
      * tauto.
      * tauto.
      * rewrite Hr in Hrun. discriminate.
      * tauto.
    + intros Hwhy.
      destruct Hcases as [[Hr _] | (Hm & Hu & Hl & [[_ Hr] | [(Hno & Hlr & Hsr & _)
                                                         | (_ & _ & w1 & Hr)]])].
      * by exists w.
      * by exists w.
      * tauto.
      * by exists w1.
  - intros Hwhy. destruct Hcases as [[Hr _] | (Hm & Hu & Hl & _)]; [exact Hr | tauto].
  - intros Hsuffix.
    destruct Hcases as [[Hr _] | (_ & _ & _ & [[_ Hr] | [(Hno & _) | (Hno & _)]])].
    + by exists w.
    + by exists w.
    + exfalso. apply Hno. unfold no_loader. rewrite Hsuffix. apply pptx_has_no_loader.
    + exfalso. apply Hno. unfold no_loader. rewrite Hsuffix. apply pptx_has_no_loader.
Qed.

(** The theorem at a file over a limit of zero megabytes, and at a
    presentation. *)
Lemma process_document_failures_witness :
  @process_document Samples.tiny_limit_env "docs/notes.txt" None Samples.empty_world
    = (Raise DocumentProcessingError, Samples.empty_world)
  /\ @fails Samples.sample_env "slides/deck.pptx" None Samples.empty_world.
Proof.
  split.
  - apply (@process_document_failures Samples.tiny_limit_env "docs/notes.txt" None
             Samples.empty_world).
    right. right. exists [Samples.x61; Samples.x61; Samples.x61].
    split; [reflexivity | vm_compute; reflexivity].
  - apply (@process_document_failures Samples.sample_env "slides/deck.pptx" None
             Samples.empty_world).
    reflexivity.
Defined.

(** C5, as stated, fails: a text file that exists, is on the list, is under
    the limit and has a loader still ends in [DocumentProcessingError] when
    the loader raises. *)
Lemma process_document_exactly_when_counterexample :
  @fails Samples.failing_loader_env "docs/notes.txt" None Samples.empty_world
  /\ ~ (@missing Samples.failing_loader_env "docs/notes.txt"
        \/ @unsupported Samples.failing_loader_env "docs/notes.txt"
        \/ @too_large Samples.failing_loader_env "docs/notes.txt"
        \/ no_loader "docs/notes.txt").
Proof.
  split.
  - eexists. vm_compute. reflexivity.
  - intros [Hm | [Hu | [(data & Hfs & Hlt) | Hno]]].
    + vm_compute in Hm. discriminate.
    + apply Hu. apply (bool_decide_unpack _). vm_compute. exact I.
    + vm_compute in Hfs. injection Hfs as <-. vm_compute in Hlt. discriminate.
    + vm_compute in Hno. discriminate.
Qed.

(** C2.  [__init__] hands the configured overlap to the splitter under the
    keyword "chunnk_overlap": no "chunk_overlap" is passed, whatever the
    splitter binds has no overlap from the configuration, and a splitter
    class without a parameter of the misspelled name refuses the call with
    [TypeError]. *)
Theorem splitter_overlap_keyword_misspelled (s : Settings) (params : list string) :
  ("chunk_overlap" ∉ (splitter_kwargs s).*1)
  /\ ("chunnk_overlap", PInt (CHUNK_OVERLAP s)) ∈ splitter_kwargs s
  /\ (forall bound, init_text_splitter params s = Ok bound ->
                    bound !! "chunk_overlap" = None)
  /\ ("chunnk_overlap" ∉ params -> init_text_splitter params s = Raise TypeError).
Proof.
  split; [|split; [|split]].
  - cbn. intros Hin. repeat (apply elem_of_cons in Hin as [Heq | Hin]; [discriminate|]).
    by apply not_elem_of_nil in Hin.
  - unfold splitter_kwargs. apply list_elem_of_further, list_elem_of_here.
  - intros bound. unfold init_text_splitter, bind_kwargs.
    destruct (forallb _ _); [|discriminate]. intros [= <-]. reflexivity.
  - intros Hnot. unfold init_text_splitter, bind_kwargs, splitter_kwargs.
    cbn [forallb fst]. rewrite (bool_decide_eq_false_2 _ Hnot).
    by rewrite andb_false_r.
Qed.

(** The theorem at the defaults and langchain's splitter. *)
Lemma splitter_overlap_keyword_misspelled_witness :
  init_text_splitter Samples.langchain_splitter_params default_settings
    = Raise TypeError.
Proof.
  apply (splitter_overlap_keyword_misspelled default_settings
           Samples.langchain_splitter_params).
  intros Hin. repeat (apply elem_of_cons in Hin as [Heq | Hin]; [discriminate|]).
  by apply not_elem_of_nil in Hin.
Defined.

End ProcessorProofs.

(** ** The cache layer *)
Module CacheProofs.
Import Text Config Cache MonadFacts.

(** *** The order of keys *)

Lemma compare_as_OT (a b : string) : String.compare a b = String_as_OT.compare a b.
Proof. revert b. induction a; destruct b; simpl; auto. Qed.

Lemma leb_trans (a b c : string) :
  String.leb a b = true -> String.leb b c = true -> String.leb a c = true.
Proof.
  unfold String.leb.
  rewrite (compare_as_OT a b), (compare_as_OT b c), (compare_as_OT a c).
  pose proof (StrictOrder_Irreflexive (R := String_as_OT.lt)) as Hirr.
  pose proof (StrictOrder_Transitive (R := String_as_OT.lt)) as Htr.
  destruct (String_as_OT.compare_spec a b) as [Eab | Hab | Hba];
    destruct (String_as_OT.compare_spec b c) as [Ebc | Hbc | Hcb];
    destruct (String_as_OT.compare_spec a c) as [Eac | Hac | Hca];
    unfold String_as_OT.eq in *; subst; try congruence; intros _ _; exfalso;
    try (by eapply Hirr; eassumption);
    try (by eapply Hirr; eapply Htr; eassumption).
  eapply Hirr, Htr; [exact Hab|]. eapply Htr; eassumption.
Qed.

Lemma leb_false_flip (a b : string) : String.leb a b = false -> String.leb b a = true.
Proof. destruct (String.leb_total a b) as [Hab | Hba]; congruence. Qed.

Lemma leb_true_flip (a b : string) :
  a <> b -> String.leb a b = true -> String.leb b a = false.
Proof.
  intros Hne H1. destruct (String.leb b a) eqn:H2; [|reflexivity].
  exfalso. apply Hne. by apply String.leb_antisym.
Qed.

(** Two insertions of items with different keys commute. *)
Lemma insert_item_comm (x y : string * pyval) (l : list (string * pyval)) :
  fst x <> fst y ->
  insert_item x (insert_item y l) = insert_item y (insert_item x l).
Proof.
  intros Hne.
  induction l as [|z l IH]; cbn [insert_item].
  - destruct (String.leb (fst x) (fst y)) eqn:E1.
    + by rewrite (leb_true_flip _ _ Hne E1).
    + by rewrite (leb_false_flip _ _ E1).
  - destruct (String.leb (fst y) (fst z)) eqn:Eyz;
      destruct (String.leb (fst x) (fst z)) eqn:Exz; cbn [insert_item].
    + destruct (String.leb (fst x) (fst y)) eqn:E1.
      * by rewrite (leb_true_flip _ _ Hne E1), Eyz.
      * by rewrite (leb_false_flip _ _ E1), Exz.
    + assert (E1 : String.leb (fst x) (fst y) = false).
      { destruct (String.leb (fst x) (fst y)) eqn:E; [|reflexivity].
        by rewrite (leb_trans _ _ _ E Eyz) in Exz. }
      by rewrite E1, Exz, Eyz.
    + assert (E1 : String.leb (fst y) (fst x) = false).
      { destruct (String.leb (fst y) (fst x)) eqn:E; [|reflexivity].
        by rewrite (leb_trans _ _ _ E Exz) in Eyz. }
      by rewrite E1, Exz, Eyz.
    + by rewrite Exz, Eyz, IH.
Qed.

(** [sorted] does not see the order in which a dictionary lists its items. *)
Lemma sorted_permutation (kw1 kw2 : list (string * pyval)) :
  kw1 ≡ₚ kw2 -> NoDup kw1.*1 -> sorted kw1 = sorted kw2.
Proof.
  induction 1 as [| x l l' Hp IH | x y l | l l' l'' Hp1 IH1 Hp2 IH2]; intros Hnd.
  - reflexivity.
  - unfold sorted in *. cbn [foldr]. rewrite fmap_cons in Hnd.
    apply NoDup_cons in Hnd as [_ Hnd]. by rewrite IH.
  - unfold sorted. cbn [foldr]. rewrite !fmap_cons in Hnd.
    apply NoDup_cons in Hnd as [Hfresh _]. apply insert_item_comm.
    intros Heq. apply Hfresh. rewrite Heq. apply list_elem_of_here.
  - rewrite IH1 by exact Hnd. apply IH2. by rewrite <- Hp1.
Qed.

(** C6.  [generate_key] is a function of the prefix, the positional
    arguments and the keyword arguments as a map: two calls that list the
    same keyword arguments in different orders get the same key, as do
    (query="foo", top_k=5) and (top_k=5, query="foo"). *)
Theorem generate_key_order_independent {rt : Runtime} (prefix : string)
    (args : list pyval) (kw1 kw2 : list (string * pyval)) :
  (NoDup kw1.*1 -> kw1 ≡ₚ kw2 ->
   generate_key prefix args kw1 = generate_key prefix args kw2)
  /\ (NoDup kw1.*1 -> NoDup kw2.*1 ->
      (list_to_map kw1 : gmap string pyval) = list_to_map kw2 ->
      generate_key prefix args kw1 = generate_key prefix args kw2)
  /\ generate_key prefix args [("query", PStr "foo"); ("top_k", PInt 5)] =
     generate_key prefix args [("top_k", PInt 5); ("query", PStr "foo")].
Proof.
  assert (Hperm : forall k1 k2, NoDup k1.*1 -> k1 ≡ₚ k2 ->
            generate_key prefix args k1 = generate_key prefix args k2).
  { intros k1 k2 Hnd Hp. unfold generate_key.
    by rewrite (sorted_permutation k1 k2 Hp Hnd). }
  split; [apply Hperm|]. split.
  - intros Hnd1 Hnd2 Hmap. apply Hperm; [exact Hnd1|].
    by apply (list_to_map_inj (M := gmap string)).
  - reflexivity.
Qed.

(** The theorem at a call with three keyword arguments, listed in two
    orders. *)
Lemma generate_key_order_independent_witness :
  @generate_key Samples.cache_runtime "query" [PInt 1]
    [("top_k", PInt 5); ("query", PStr "foo"); ("filter", PNone)] =
  @generate_key Samples.cache_runtime "query" [PInt 1]
    [("filter", PNone); ("top_k", PInt 5); ("query", PStr "foo")].
Proof.
  apply (proj1 (@generate_key_order_independent Samples.cache_runtime "query" [PInt 1]
           [("top_k", PInt 5); ("query", PStr "foo"); ("filter", PNone)]
           [("filter", PNone); ("top_k", PInt 5); ("query", PStr "foo")])).
  - apply (bool_decide_unpack _). vm_compute. exact I.
  - symmetry. apply (Permutation_cons_append [("top_k", PInt 5); ("query", PStr "foo")]).
Defined.

(** *** Failures stay inside the cache *)

Section WithRuntime.
Context {rt : Runtime}.
Variable settings : Settings.

Lemma try_swallow {S A} (body : M S A) (d : A) (st : S) :
  exists v st', try_except body (fun _ => mret d) st = (Ok v, st').
Proof.
  rewrite try_except_run. destruct (body st) as [[a|e] st']; by eexists _, _.
Qed.

Lemma try_swallow_raise {S A} (body : M S A) (d : A) (st st' : S) (e : exn) :
  body st = (Raise e, st') ->
  try_except body (fun _ => mret d) st = (Ok d, st').
Proof. intros Hraise. by rewrite try_except_run, Hraise. Qed.

Lemma client_call_raises {A} (e : event)
    (act : gmap string string -> A * gmap string string) (st : state) :
  faults (srv st) !! 0%nat = Some true ->
  exists st', client_call e act st = (Raise (ExternalError "redis"), st').
Proof.
  intros Hfault. unfold client_call.
  destruct (faults (srv st)) as [|[] fl]; try discriminate. by eexists.
Qed.

Lemma get_returns (key : string) (st : state) :
  exists v st', get key st = (Ok v, st').
Proof.
  unfold get. rewrite bind_run. cbn [gets].
  destruct (unusable (self st)); [by eexists _, _ | apply try_swallow].
Qed.

Lemma set_returns (key : string) (value : pyval) (ttl_arg : option Z) (st : state) :
  exists b st', set key value ttl_arg st = (Ok b, st').
Proof.
  unfold set. rewrite bind_run. cbn [gets].
  destruct (unusable (self st)); [by eexists _, _ | apply try_swallow].
Qed.

Lemma delete_returns (key : string) (st : state) :
  exists b st', delete key st = (Ok b, st').
Proof.
  unfold delete. rewrite bind_run. cbn [gets].
  destruct (unusable (self st)); [by eexists _, _ | apply try_swallow].
Qed.

Lemma connect_returns (st : state) :
  exists st', connect settings st = (Ok tt, st').
Proof.
  unfold connect. rewrite bind_run. cbn [gets].
  destruct (enabled (self st)); cbn [negb]; [|by eexists].
  rewrite try_except_run.
  match goal with |- context [match ?b ?x with _ => _ end] =>
    destruct (b x) as [[[]|e] st1] end; by eexists.
Qed.

Lemma unusable_noop (key : string) (value : pyval) (ttl_arg : option Z) (st : state) :
  unusable (self st) = true ->
  get key st = (Ok PNone, st)
  /\ set key value ttl_arg st = (Ok false, st)
  /\ delete key st = (Ok false, st).
Proof.
  intros Hun. unfold get, set, delete. rewrite !bind_run. cbn [gets].
  rewrite Hun. by repeat split.
Qed.

Lemma store_failure_swallowed (key : string) (value : pyval) (ttl_arg : option Z)
    (st : state) :
  faults (srv st) !! 0%nat = Some true ->
  fst (get key st) = Ok PNone
  /\ fst (set key value ttl_arg st) = Ok false
  /\ fst (delete key st) = Ok false.
Proof.
  intros Hfault. unfold get, set, delete. rewrite !bind_run. cbn [gets].
  destruct (unusable (self st)); [by repeat split|].
  split; [|split].
  - destruct (client_call_raises (EGet key) (fun m => (m !! key, m)) st Hfault)
      as [st' Hraise].
    erewrite try_swallow_raise; [reflexivity|].
    rewrite bind_run. unfold redis_get. by rewrite Hraise.
  - destruct (json_dumps value) as [serialized|e] eqn:Hjson.
    + destruct (client_call_raises
                  (ESetex key
                     match ttl_arg with
                     | Some t => if (t =? 0)%Z then ttl (self st) else t
                     | None => ttl (self st)
                     end serialized)
                  (fun m => (tt, <[key := serialized]> m)) st Hfault)
        as [st' Hraise].
      erewrite try_swallow_raise; [reflexivity|].
      rewrite bind_run. unfold lift at 1.
      rewrite bind_run. unfold redis_setex. by rewrite Hraise.
    + erewrite try_swallow_raise; [reflexivity|].
      rewrite bind_run. reflexivity.
  - destruct (client_call_raises (EDelete key) (fun m => (tt, base.delete key m)) st
                Hfault) as [st' Hraise].
    erewrite try_swallow_raise; [reflexivity|].
    rewrite bind_run. unfold redis_delete. by rewrite Hraise.
Qed.

Lemma connect_failure_disables (st st' : state) :
  connection_fails st ->
  connect settings st = (Ok tt, st') ->
  enabled (self st') = false.
Proof.
  unfold connection_fails. destruct st as [[client on t] [entries fl lg]].
  destruct on; [|by intros _ [= <-]].
  destruct fl as [|[] [|[] fl]]; cbn; intros [?|?] [= <-]; done.
Qed.

Lemma prepare_returns (st : state) : exists st1, prepare settings st = (Ok tt, st1).
Proof. unfold prepare. rewrite bind_run. cbn [set_self modify]. apply connect_returns. Qed.

Lemma prepare_disabled (st st1 : state) :
  ENABLE_CACHE settings = false \/ connection_fails st ->
  prepare settings st = (Ok tt, st1) ->
  enabled (self st1) = false.
Proof.
  unfold prepare. rewrite bind_run. cbn [set_self modify]. intros [Hoff | Hfail] Hrun.
  - unfold connect, new_cache in Hrun. rewrite bind_run in Hrun. cbn in Hrun.
    rewrite Hoff in Hrun. cbn in Hrun. injection Hrun as <-. reflexivity.
  - eapply connect_failure_disables; [|exact Hrun]. exact Hfail.
Qed.

Lemma call_generate_key_ok (prefix : string) (args : list pyval)
    (kwargs : list (string * pyval)) :
  "prefix" ∉ kwargs.*1 ->
  call_generate_key prefix args kwargs = Ok (generate_key prefix args kwargs).
Proof.
  intros Hk. unfold call_generate_key. by rewrite (bool_decide_eq_false_2 _ Hk).
Qed.

(** The wrapper once the manager is built and [connect] has returned. *)
Lemma cached_from_prepare (prefix : string) (ttl_arg : option Z)
    (func : M server pyval) (args : list pyval) (kwargs : list (string * pyval))
    (st st1 : state) :
  prepare settings st = (Ok tt, st1) ->
  cached settings prefix ttl_arg func args kwargs st =
  match call_generate_key prefix args kwargs with
  | Raise e => (Raise e, st1)
  | Ok cache_key =>
      (get cache_key ≫= fun cached_result =>
         match cached_result with
         | PNone =>
             call func ≫= fun result =>
             set cache_key result ttl_arg ;;
             disconnect ;; mret result
         | _ => disconnect ;; mret cached_result
         end) st1
  end.
Proof.
  intros Hprep. unfold cached. unfold prepare in Hprep.
  rewrite bind_run in Hprep. rewrite bind_run.
  cbn [set_self modify] in Hprep |- *. rewrite bind_run.
  destruct (connect settings _) as [[[]|e] st1']; [|discriminate].
  injection Hprep as ->. rewrite bind_run. unfold lift at 1.
  by destruct (call_generate_key prefix args kwargs).
Qed.

(** A keyword argument named prefix: the wrapper raises [TypeError] in
    the state [connect] left, before any [get] and before the function. *)
Lemma cached_keyword_collision (prefix : string) (ttl_arg : option Z)
    (func : M server pyval) (args : list pyval) (kwargs : list (string * pyval))
    (st st1 : state) :
  "prefix" ∈ kwargs.*1 ->
  prepare settings st = (Ok tt, st1) ->
  cached settings prefix ttl_arg func args kwargs st = (Raise TypeError, st1).
Proof.
  intros Hk Hprep. rewrite (cached_from_prepare _ _ _ _ _ _ _ Hprep).
  unfold call_generate_key. by rewrite (bool_decide_eq_true_2 _ Hk).
Qed.

(** With the cache disabled the wrapper is: call the function, close the
    client if there is one, return what the function returned. *)
Lemma cached_pass_through (prefix : string) (ttl_arg : option Z)
    (func : M server pyval) (args : list pyval) (kwargs : list (string * pyval))
    (st st1 : state) :
  "prefix" ∉ kwargs.*1 ->
  prepare settings st = (Ok tt, st1) ->
  enabled (self st1) = false ->
  cached settings prefix ttl_arg func args kwargs st =
  (call func ≫= fun result => disconnect ;; mret result) st1.
Proof.
  intros Hk Hprep Hoff.
  rewrite (cached_from_prepare _ _ _ _ _ _ _ Hprep), (call_generate_key_ok _ _ _ Hk).
  assert (Hun : unusable (self st1) = true) by (unfold unusable; by rewrite Hoff).
  rewrite bind_run.
  destruct (unusable_noop (generate_key prefix args kwargs) PNone None st1 Hun)
    as (-> & _ & _).
  rewrite !bind_run. destruct (call func st1) as [[result|e] st2] eqn:Hcall;
    [|reflexivity].
  assert (Hself : self st2 = self st1).
  { unfold call in Hcall. destruct (func _) as [r s']. by injection Hcall as _ <-. }
  assert (Hun2 : unusable (self st2) = true) by by rewrite Hself.
  rewrite (bind_run (set _ _ _)).
  destruct (unusable_noop (generate_key prefix args kwargs) result ttl_arg st2 Hun2)
    as (_ & -> & _).
  reflexivity.
Qed.

Lemma client_call_returns {A} (e : event)
    (act : gmap string string -> A * gmap string string) (st : state) :
  faults (srv st) !! 0%nat <> Some true ->
  exists a st', client_call e act st = (Ok a, st').
Proof.
  intros Hfault. unfold client_call.
  destruct (faults (srv st)) as [|[] fl]; [|by destruct Hfault|];
    destruct (act (kv (srv st))); by eexists _, _.
Qed.

Lemma disconnect_returns (st : state) :
  ~ (is_Some (redis_client (self st)) /\ close_raises (srv st)) ->
  exists st', disconnect st = (Ok tt, st').
Proof.
  intros Hclose. unfold disconnect. rewrite bind_run. cbn [gets].
  destruct (redis_client (self st)) as [client|] eqn:Hclient; [|by eexists].
  destruct (client_call_returns EClose (fun m => (tt, m)) st) as ([] & st' & Hrun).
  { intros Hfault. apply Hclose. split; [by eexists | exact Hfault]. }
  by exists st'.
Qed.

Lemma cached_returns (prefix : string) (ttl_arg : option Z)
    (func : M server pyval) (args : list pyval) (kwargs : list (string * pyval))
    (st st1 : state) (v : pyval) (s2 : server) :
  "prefix" ∉ kwargs.*1 ->
  prepare settings st = (Ok tt, st1) ->
  enabled (self st1) = false ->
  func (mkServer (kv (srv st1)) (faults (srv st1)) (log (srv st1) ++ [ECall]))
    = (Ok v, s2) ->
  ~ (is_Some (redis_client (self st1)) /\ close_raises s2) ->
  exists st3, cached settings prefix ttl_arg func args kwargs st = (Ok v, st3).
Proof.
  intros Hk Hprep Hoff Hfunc Hclose.
  rewrite (cached_pass_through _ _ _ _ _ _ _ Hk Hprep Hoff), bind_run.
  unfold call. rewrite Hfunc, bind_run.
  destruct (disconnect_returns (mkState (self st1) s2) Hclose) as [st3 ->].
  by exists st3.
Qed.

(** The function has returned and the [close] of [disconnect] raises: the
    wrapper raises what [close] raised. *)
Lemma cached_raises_at_close (prefix : string) (ttl_arg : option Z)
    (func : M server pyval) (args : list pyval) (kwargs : list (string * pyval))
    (st st1 : state) (v : pyval) (s2 : server) :
  "prefix" ∉ kwargs.*1 ->
  prepare settings st = (Ok tt, st1) ->
  enabled (self st1) = false ->
  func (mkServer (kv (srv st1)) (faults (srv st1)) (log (srv st1) ++ [ECall]))
    = (Ok v, s2) ->
  is_Some (redis_client (self st1)) ->
  close_raises s2 ->
  exists st3,
    cached settings prefix ttl_arg func args kwargs st =
    (Raise (ExternalError "redis"), st3).
Proof.
  intros Hk Hprep Hoff Hfunc [client Hclient] Hclose.
  rewrite (cached_pass_through _ _ _ _ _ _ _ Hk Hprep Hoff), bind_run.
  unfold call. rewrite Hfunc, bind_run.
  unfold disconnect. rewrite bind_run. cbn [gets self]. rewrite Hclient.
  destruct (client_call_raises EClose (fun m => (tt, m)) (mkState (self st1) s2) Hclose)
    as [st3 Hraise].
  unfold redis_close. rewrite Hraise. by exists st3.
Qed.

End WithRuntime.

(** C9.  [get], [set], [delete] and [connect] guard every call to the
    client: they return whatever the client does, a disabled or unconnected
    cache answers [None] and [False] without touching the server, so does a
    cache whose client raises, and a failed connection leaves the cache
    disabled.  The wrapper does not keep that up.  With the cache off or
    the connection failed, and no keyword argument named prefix, it calls
    the function on the state [connect] left; when the function returns,
    the wrapper returns its result only if the [close] of [disconnect],
    which no handler guards, returns: if a client was made and its [close]
    raises, the wrapper raises although the function returned.  And for a
    keyword argument named prefix the wrapper raises [TypeError] at
    [generate_key], in the state [connect] left: the function is not
    called. *)
Theorem wrapper_close_is_unguarded {rt : Runtime} (settings : Settings)
    (prefix : string) (ttl_arg : option Z) (func : M server pyval)
    (args : list pyval) (kwargs : list (string * pyval))
    (key : string) (value : pyval) (st : state) :
  (exists v st', get key st = (Ok v, st'))
  /\ (exists b st', set key value ttl_arg st = (Ok b, st'))
  /\ (exists b st', delete key st = (Ok b, st'))
  /\ (exists st', connect settings st = (Ok tt, st'))
  /\ (unusable (self st) = true ->
      get key st = (Ok PNone, st)
      /\ set key value ttl_arg st = (Ok false, st)
      /\ delete key st = (Ok false, st))
  /\ (faults (srv st) !! 0%nat = Some true ->
      fst (get key st) = Ok PNone
      /\ fst (set key value ttl_arg st) = Ok false
      /\ fst (delete key st) = Ok false)
  /\ (connection_fails st ->
      forall st', connect settings st = (Ok tt, st') -> enabled (self st') = false)
  /\ ("prefix" ∉ kwargs.*1 ->
      ENABLE_CACHE settings = false \/ connection_fails st ->
      exists st1,
        prepare settings st = (Ok tt, st1)
        /\ enabled (self st1) = false
        /\ cached settings prefix ttl_arg func args kwargs st =
           (call func ≫= fun result => disconnect ;; mret result) st1
        /\ forall v s2,
             func (mkServer (kv (srv st1)) (faults (srv st1)) (log (srv st1) ++ [ECall]))
               = (Ok v, s2) ->
             (is_Some (redis_client (self st1)) /\ close_raises s2 ->
              exists st3,
                cached settings prefix ttl_arg func args kwargs st =
                (Raise (ExternalError "redis"), st3))
             /\ (~ (is_Some (redis_client (self st1)) /\ close_raises s2) ->
                 exists st3,
                   cached settings prefix ttl_arg func args kwargs st = (Ok v, st3)))
  /\ ("prefix" ∈ kwargs.*1 ->
      exists st1,
        prepare settings st = (Ok tt, st1)
        /\ cached settings prefix ttl_arg func args kwargs st = (Raise TypeError, st1)).
Proof.
  split; [apply get_returns|]. split; [apply set_returns|].
  split; [apply delete_returns|]. split; [apply connect_returns|].
  split; [apply unusable_noop|]. split; [apply store_failure_swallowed|].
  split; [intros Hfail st'; by apply connect_failure_disables|].
  destruct (prepare_returns settings st) as [st1 Hprep].
  split.
  - intros Hk Hwhy.
    pose proof (prepare_disabled settings st st1 Hwhy Hprep) as Hoff.
    exists st1. split; [exact Hprep|]. split; [exact Hoff|]. split.
    + by apply cached_pass_through.
    + intros v s2 Hfunc. split.
      * intros [Hclient Hclose]. by eapply cached_raises_at_close.
      * by apply cached_returns.
  - intros Hk. exists st1. split; [exact Hprep|].
    by apply cached_keyword_collision.
Qed.

(** The theorem at a server that refuses the [ping] and the [close]: the
    wrapped function returns its answer and the wrapper raises. *)
Lemma wrapper_close_is_unguarded_witness :
  connection_fails (Samples.start Samples.flaky_server)
  /\ (forall s, Samples.answer_fn s = (Ok (PStr "forty-two"), s))
  /\ exists st3,
       @cached Samples.cache_runtime default_settings "query" None Samples.answer_fn
         [] [("top_k", PInt 5)] (Samples.start Samples.flaky_server) =
       (Raise (ExternalError "redis"), st3).
Proof.
  split; [by right|]. split; [reflexivity|].
  destruct (@wrapper_close_is_unguarded Samples.cache_runtime default_settings
              "query" None Samples.answer_fn [] [("top_k", PInt 5)] "k" PNone
              (Samples.start Samples.flaky_server))
    as (_ & _ & _ & _ & _ & _ & _ & Hwrap & _).
  destruct Hwrap as (st1 & Hprep & _ & _ & Hret).
  { apply (bool_decide_unpack _). vm_compute. exact I. }
  { right. right. reflexivity. }
  vm_compute in Hprep. injection Hprep as <-.
  eapply Hret.
  - reflexivity.
  - split; [by eexists | reflexivity].
Defined.

(** The same server with a [close] that returns: the wrapper returns the
    answer.  And a keyword argument named prefix: [TypeError], whatever
    the server does. *)
Lemma wrapper_returns_when_close_returns :
  fst (@cached Samples.cache_runtime default_settings "query" None Samples.answer_fn
         [] [("top_k", PInt 5)] (Samples.start Samples.down_server))
  = Ok (PStr "forty-two")
  /\ fst (@cached Samples.cache_runtime default_settings "query" None Samples.answer_fn
            [] [("prefix", PStr "docs/")] (Samples.start Samples.down_server))
     = Raise TypeError.
Proof. split; vm_compute; reflexivity. Qed.

End CacheProofs.

(** * Further properties *)

(** ** The response validator: scores and warnings *)
Module ValidatorMore.
Import Text Validator Enricher Generation ValidatorProofs EnricherProofs.
Local Open Scope Q_scope.

Lemma overlap_le_total (A : gset string) (docs : list Document) :
  (spec_overlap A docs <= size A * length docs)%nat.
Proof.
  induction docs as [|d docs IH]; cbn [spec_overlap foldr length]; [lia|].
  fold (spec_overlap A docs).
  assert (size (A ∩ word_set (lower (page_content d))) <= size A)%nat.
  { apply subseteq_size, intersection_subseteq_l. }
  lia.
Qed.

Lemma ratio_bounds (a b : nat) : (a <= b)%nat -> (0 < b)%nat -> 0 <= ratio a b <= 1.
Proof.
  intros Hab Hb. unfold ratio. split.
  - apply Qle_shift_div_l.
    + unfold Qlt. simpl. lia.
    + rewrite Qmult_0_l. unfold Qle. simpl. lia.
  - apply Qle_shift_div_r.
    + unfold Qlt. simpl. lia.
    + rewrite Qmult_1_l. unfold Qle. simpl. lia.
Qed.

(** X1.  The grounding score lies in [0, 1], and the cap at 1 never cuts:
    the overlap cannot exceed the total, so with a non-empty context and an
    answer that has a word the score is the quotient itself. *)
Theorem grounding_score_range (answer : string) (context_docs : list Document) :
  0 <= check_grounding answer context_docs <= 1
  /\ (context_docs <> [] ->
      size (word_set (lower answer)) <> 0%nat ->
      check_grounding answer context_docs ==
      ratio (spec_overlap (word_set (lower answer)) context_docs)
            (size (word_set (lower answer)) * length context_docs)).
Proof.
  rewrite check_grounding_spec. unfold spec_grounding.
  pose proof (overlap_le_total (word_set (lower answer)) context_docs) as Hle.
  set (A := word_set (lower answer)) in *.
  split.
  - destruct ((length context_docs =? 0)%nat || _) eqn:Hz; [by split|].
    apply orb_false_iff in Hz as [_ Hz]. apply Nat.eqb_neq in Hz.
    destruct (ratio_bounds _ _ Hle ltac:(lia)) as [H0 H1].
    split; [by apply Q.min_glb | apply Q.le_min_r].
  - intros Hne HA.
    assert (Hlen : length context_docs <> 0%nat) by by destruct context_docs.
    assert (Htot : (size A * length context_docs)%nat <> 0%nat) by lia.
    apply Nat.eqb_neq in Hlen, Htot. rewrite Hlen, Htot. cbn [orb].
    apply Q.min_l. apply ratio_bounds; [exact Hle|].
    apply Nat.eqb_neq in Htot. lia.
Qed.

(** The theorem at an answer of which one word in two is in the chunk. *)
Lemma grounding_score_range_witness :
  check_grounding "blue cat" [mkDocument "the cat sat" 0] == 1 # 2.
Proof.
  rewrite (proj2 (grounding_score_range "blue cat" [mkDocument "the cat sat" 0])).
  - vm_compute. reflexivity.
  - discriminate.
  - vm_compute. discriminate.
Defined.


Lemma check_grounding_ratio (answer : string) (docs : list Document) :
  docs <> [] ->
  size (word_set (lower answer)) <> 0%nat ->
  check_grounding answer docs ==
  ratio (spec_overlap (word_set (lower answer)) docs)
        (size (word_set (lower answer)) * length docs).
Proof.
  intros Hne HA. rewrite check_grounding_spec. unfold spec_grounding.
  pose proof (overlap_le_total (word_set (lower answer)) docs) as Hle.
  assert (Hlen : length docs <> 0%nat) by by destruct docs.
  assert (Htot : (size (word_set (lower answer)) * length docs)%nat <> 0%nat) by lia.
  apply Nat.eqb_neq in Hlen. pose proof Htot as Htot'. apply Nat.eqb_neq in Htot'.
  rewrite Hlen, Htot'. cbn [orb].
  apply Q.min_l. apply ratio_bounds; [exact Hle | lia].
Qed.

Lemma lower_char_idempotent (c : ascii) : lower_char (lower_char c) = lower_char c.
Proof. destruct c as [[] [] [] [] [] [] [] []]; reflexivity. Qed.

Lemma lower_idempotent (s : string) : lower (lower s) = lower s.
Proof.
  induction s as [|c s IH]; [reflexivity|].
  cbn [lower]. by rewrite lower_char_idempotent, IH.
Qed.

Lemma spec_overlap_texts (A : gset string) (docs docs' : list Document) :
  Forall2 (fun d d' => lower (page_content d) = lower (page_content d')) docs docs' ->
  spec_overlap A docs = spec_overlap A docs'.
Proof.
  induction 1 as [|d d' docs docs' Hd _ IH]; [reflexivity|].
  cbn [spec_overlap foldr]. fold (spec_overlap A docs) (spec_overlap A docs').
  by rewrite Hd, IH.
Qed.

(** X2.  Letter case plays no part in the grounding score: two answers
    that agree once lower-cased, measured against two lists of chunks whose
    texts agree pairwise once lower-cased, get the same score. *)
Theorem grounding_ignores_case (answer answer' : string)
    (context_docs context_docs' : list Document) :
  lower answer = lower answer' ->
  Forall2 (fun d d' => lower (page_content d) = lower (page_content d'))
          context_docs context_docs' ->
  check_grounding answer context_docs = check_grounding answer' context_docs'.
Proof.
  intros Ha Hd. rewrite !check_grounding_spec. unfold spec_grounding.
  rewrite Ha, (spec_overlap_texts _ _ _ Hd), (Forall2_length _ _ _ Hd).
  reflexivity.
Qed.

(** The theorem at two spellings of one answer and one chunk. *)
Lemma grounding_ignores_case_witness :
  check_grounding "The CAT sat" [mkDocument "the cat sat on the mat" 0] =
  check_grounding "the cat sat" [mkDocument "THE Cat Sat On The Mat" 7].
Proof.
  apply grounding_ignores_case.
  - reflexivity.
  - repeat constructor.
Defined.

Lemma spec_overlap_permutation (A : gset string) (docs docs' : list Document) :
  docs ≡ₚ docs' -> spec_overlap A docs = spec_overlap A docs'.
Proof.
  induction 1 as [| d l l' _ IH | d d' l | l l' l'' _ IH1 _ IH2];
    cbn [spec_overlap foldr]; try fold (spec_overlap A l) (spec_overlap A l');
    [reflexivity | by rewrite IH | fold (spec_overlap A l); lia | congruence].
Qed.

(** X3.  The order of the context chunks plays no part in the grounding
    score: a permutation of the list gives the same score. *)
Theorem grounding_ignores_order (answer : string)
    (context_docs context_docs' : list Document) :
  context_docs ≡ₚ context_docs' ->
  check_grounding answer context_docs = check_grounding answer context_docs'.
Proof.
  intros Hp. rewrite !check_grounding_spec. unfold spec_grounding.
  by rewrite (spec_overlap_permutation _ _ _ Hp), (Permutation_length Hp).
Qed.

(** The theorem at two chunks, swapped. *)
Lemma grounding_ignores_order_witness :
  check_grounding "cat" [mkDocument "a cat" 0; mkDocument "a dog" 1] =
  check_grounding "cat" [mkDocument "a dog" 1; mkDocument "a cat" 0].
Proof. apply grounding_ignores_order. apply perm_swap. Defined.

Lemma spec_overlap_full (A : gset string) (docs : list Document) :
  spec_overlap A docs = (size A * length docs)%nat <->
  Forall (fun d => A ⊆ word_set (lower (page_content d))) docs.
Proof.
  induction docs as [|d docs IH].
  - cbn. split; [intros _; constructor | lia].
  - cbn [spec_overlap foldr length]. fold (spec_overlap A docs).
    pose proof (overlap_le_total A docs) as Hle.
    assert (Hd : (size (A ∩ word_set (lower (page_content d))) <= size A)%nat)
      by apply subseteq_size, intersection_subseteq_l.
    rewrite Forall_cons, <- IH. split.
    + intros Heq. split; [|lia].
      assert (A ∩ word_set (lower (page_content d)) ≡ A) as Hsub.
      { apply set_subseteq_size_equiv; [apply intersection_subseteq_l | lia]. }
      set_solver.
    + intros [Hsub Heq].
      replace (A ∩ word_set (lower (page_content d))) with A by (apply leibniz_equiv; set_solver). lia.
Qed.

Lemma spec_overlap_none (A : gset string) (docs : list Document) :
  spec_overlap A docs = 0%nat <-> Forall (fun d => A ## word_set (lower (page_content d))) docs.
Proof.
  induction docs as [|d docs IH].
  - cbn. split; [intros _; constructor | reflexivity].
  - cbn [spec_overlap foldr]. fold (spec_overlap A docs).
    rewrite Forall_cons, <- IH, Nat.eq_add_0, size_empty_iff.
    split; intros [H1 H2]; (split; [set_solver | exact H2]).
Qed.

Lemma ratio_one (a b : nat) : (0 < b)%nat -> ratio a b == 1 <-> a = b.
Proof.
  intros Hb. unfold ratio, Qdiv, Qmult, Qinv, Qeq.
  destruct b as [|b]; [lia|]. simpl. split; intros H; lia.
Qed.

Lemma ratio_zero (a b : nat) : (0 < b)%nat -> ratio a b == 0 <-> a = 0%nat.
Proof.
  intros Hb. unfold ratio, Qdiv, Qmult, Qinv, Qeq.
  destruct b as [|b]; [lia|]. simpl. split; intros H; lia.
Qed.

(** X4.  With a non-empty context and an answer that has a word, the
    grounding score is 1 exactly when every chunk contains every word of
    the answer, and 0 exactly when no chunk contains any word of it. *)
Theorem grounding_full_and_none (answer : string) (context_docs : list Document) :
  context_docs <> [] ->
  word_set (lower answer) <> ∅ ->
  (check_grounding answer context_docs == 1 <->
   Forall (fun d => word_set (lower answer) ⊆ word_set (lower (page_content d))) context_docs)
  /\ (check_grounding answer context_docs == 0 <->
      Forall (fun d => word_set (lower answer) ## word_set (lower (page_content d))) context_docs).
Proof.
  intros Hne HA.
  assert (HA' : size (word_set (lower answer)) <> 0%nat).
  { intros Hz. apply HA. by apply size_empty_iff, leibniz_equiv in Hz. }
  assert (Hlen : length context_docs <> 0%nat) by by destruct context_docs.
  rewrite (check_grounding_ratio _ _ Hne HA').
  split.
  - rewrite ratio_one by lia. apply spec_overlap_full.
  - rewrite ratio_zero by lia. apply spec_overlap_none.
Qed.

(** The theorem at an answer whose two words are in both chunks. *)
Lemma grounding_full_and_none_witness :
  check_grounding "Cat sat" [mkDocument "the cat sat" 0; mkDocument "here sat a cat" 1] == 1.
Proof.
  apply (grounding_full_and_none "Cat sat"
           [mkDocument "the cat sat" 0; mkDocument "here sat a cat" 1]).
  - discriminate.
  - vm_compute. discriminate.
  - repeat constructor; apply (bool_decide_unpack _); vm_compute; exact I.
Defined.

Lemma warnings_shape (answer : string) (docs : list Document) :
  warnings (validate_answer answer docs) =
  ((if (len answer <? 10)%nat then ["Answer too short"] else []) ++
   (if (5000 <? len answer)%nat then ["Answer too long"] else []) ++
   (if Qltb (check_grounding answer docs) (1 # 2) then ["Low grounding score"] else []) ++
   (if contains_uncertainity answer then ["Response indicates uncertainity"] else []))%list.
Proof.
  unfold validate_answer, min_answer_length, max_answer_length.
  destruct (len answer <? 10)%nat; destruct (5000 <? len answer)%nat;
    destruct (Qltb _ _); destruct (contains_uncertainity answer); reflexivity.
Qed.

Lemma warning_short (answer : string) (docs : list Document) :
  "Answer too short" ∈ warnings (validate_answer answer docs) <-> (len answer < 10)%nat.
Proof.
  rewrite warnings_shape, <- Nat.ltb_lt.
  destruct (len answer <? 10)%nat; destruct (5000 <? len answer)%nat;
    destruct (Qltb _ _); destruct (contains_uncertainity answer);
    cbn [app]; rewrite ?elem_of_cons, ?elem_of_nil; naive_solver.
Qed.

Lemma warning_long (answer : string) (docs : list Document) :
  "Answer too long" ∈ warnings (validate_answer answer docs) <-> (5000 < len answer)%nat.
Proof.
  rewrite warnings_shape, <- Nat.ltb_lt.
  destruct (len answer <? 10)%nat; destruct (5000 <? len answer)%nat;
    destruct (Qltb _ _); destruct (contains_uncertainity answer);
    cbn [app]; rewrite ?elem_of_cons, ?elem_of_nil; naive_solver.
Qed.

Lemma warning_uncertain (answer : string) (docs : list Document) :
  "Response indicates uncertainity" ∈ warnings (validate_answer answer docs) <->
  contains_uncertainity answer = true.
Proof.
  rewrite warnings_shape.
  destruct (len answer <? 10)%nat; destruct (5000 <? len answer)%nat;
    destruct (Qltb _ _); destruct (contains_uncertainity answer);
    cbn [app]; rewrite ?elem_of_cons, ?elem_of_nil; naive_solver.
Qed.

(** X5.  The warnings of a validation come in a fixed order and each at
    most once: they are a sublist of too short, too long, low grounding,
    uncertainty.  The first appears exactly for answers under 10
    characters, the second exactly for answers over 5000, never both. *)
Theorem warnings_in_order (answer : string) (context_docs : list Document) :
  warnings (validate_answer answer context_docs) `sublist_of`
    ["Answer too short"; "Answer too long"; "Low grounding score";
     "Response indicates uncertainity"]
  /\ ("Answer too short" ∈ warnings (validate_answer answer context_docs)
      <-> (len answer < 10)%nat)
  /\ ("Answer too long" ∈ warnings (validate_answer answer context_docs)
      <-> (5000 < len answer)%nat)
  /\ ~ ("Answer too short" ∈ warnings (validate_answer answer context_docs)
        /\ "Answer too long" ∈ warnings (validate_answer answer context_docs)).
Proof.
  split; [|split; [apply warning_short | split; [apply warning_long|]]].
  - rewrite warnings_shape.
    destruct (len answer <? 10)%nat; destruct (5000 <? len answer)%nat;
      destruct (Qltb _ _); destruct (contains_uncertainity answer); cbn [app];
      repeat first [apply sublist_nil | apply sublist_skip | apply sublist_cons].
  - rewrite warning_short, warning_long. lia.
Qed.

Lemma runs_length (p : ascii -> bool) (s cur : string) :
  (length (runs p s cur) <= String.length s + length (flush cur))%nat.
Proof.
  revert cur. induction s as [|c s IH]; intros cur; cbn [runs String.length].
  - lia.
  - destruct (p c).
    + etransitivity; [apply IH|]. destruct cur; simpl; lia.
    + rewrite length_app. specialize (IH ""). cbn [flush List.length] in IH. lia.
Qed.

Lemma word_count_le_len (s : string) : (length (split s) <= len s)%nat.
Proof.
  unfold split, len. pose proof (runs_length (fun c => negb (is_space c)) s "") as H.
  cbn [flush List.length] in H. lia.
Qed.

Lemma check_grounding_bounds (answer : string) (docs : list Document) :
  0 <= check_grounding answer docs <= 1.
Proof.
  rewrite check_grounding_spec. unfold spec_grounding.
  pose proof (overlap_le_total (word_set (lower answer)) docs) as Hle.
  destruct ((length docs =? 0)%nat || _) eqn:Hz; [by split|].
  apply orb_false_iff in Hz as [_ Hz]. apply Nat.eqb_neq in Hz.
  destruct (ratio_bounds _ _ Hle ltac:(lia)) as [H0 H1].
  split; [by apply Q.min_glb | apply Q.le_min_r].
Qed.

(** X6.  An answer of under 20 characters has under 20 words, so it takes
    the length penalty and no bonus: its quality score is the grounding
    score less 0.3, floored at 0, and never exceeds 0.7. *)
Theorem short_answer_quality (answer : string) (context_docs : list Document) :
  (len answer < 20)%nat ->
  (length (split answer) < 20)%nat
  /\ quality_score (validate_answer answer context_docs) ==
     Qmax 0 (check_grounding answer context_docs - (3 # 10))
  /\ quality_score (validate_answer answer context_docs) <= 7 # 10.
Proof.
  intros Hlen. pose proof (word_count_le_len answer) as Hwc.
  assert (Hw : (length (split answer) < 20)%nat) by lia.
  split; [exact Hw|].
  rewrite validate_answer_quality. unfold calculate_quality_score.
  replace (50 <=? length (split answer))%nat with false
    by (symmetry; apply Nat.leb_gt; lia).
  replace (length (split answer) <? 20)%nat with true
    by (symmetry; apply Nat.ltb_lt; lia).
  cbn [andb orb].
  destruct (check_grounding_bounds answer context_docs) as [_ Hg].
  assert (Hx : check_grounding answer context_docs - (3 # 10) <= 7 # 10).
  { apply Qplus_le_l with (z := 3 # 10). ring_simplify.
    apply Qle_trans with (y := 1); [exact Hg | discriminate]. }
  assert (Hmin : Qmin 1 (check_grounding answer context_docs - (3 # 10)) ==
                 check_grounding answer context_docs - (3 # 10)).
  { apply Q.min_r. apply Qle_trans with (y := 7 # 10); [exact Hx | discriminate]. }
  split.
  - apply Q.max_compat; [reflexivity | exact Hmin].
  - rewrite Hmin. apply Q.max_lub; [discriminate | exact Hx].
Qed.

(** The theorem at an answer of twelve characters. *)
Lemma short_answer_quality_witness :
  quality_score (validate_answer "The cat sat." [mkDocument "the cat sat" 0]) <= 7 # 10.
Proof.
  apply (short_answer_quality "The cat sat." [mkDocument "the cat sat" 0]).
  vm_compute. lia.
Defined.

Lemma string_app_assoc (a b c : string) : (a ++ b) ++ c = a ++ b ++ c.
Proof.
  induction a as [|x a IH]; [reflexivity|].
  change (String x ((a ++ b) ++ c) = String x (a ++ b ++ c)). by rewrite IH.
Qed.

Lemma occurs_inside (w s pre post : string) :
  occurs w s -> occurs w (pre ++ s ++ post).
Proof.
  intros (a & b & ->). exists (pre ++ a), (b ++ post).
  by rewrite !string_app_assoc.
Qed.

(** X7.  The uncertainty warning is given exactly when one of the four
    phrases occurs in the lower-cased answer.  So every answer that
    contains, in any capitalisation, the sentence that the prompt template
    tells the model to state is flagged. *)
Theorem uncertainty_flagged (answer : string) (context_docs : list Document) :
  ("Response indicates uncertainity" ∈ warnings (validate_answer answer context_docs)
   <-> any_occurs uncertainty_phrases (lower answer))
  /\ (forall pre said post,
        lower said = lower refusal_sentence ->
        "Response indicates uncertainity" ∈
          warnings (validate_answer (pre ++ said ++ post) context_docs)).
Proof.
  assert (Hiff : forall a, "Response indicates uncertainity" ∈
                   warnings (validate_answer a context_docs)
                 <-> any_occurs uncertainty_phrases (lower a)).
  { intros a. rewrite warning_uncertain. unfold contains_uncertainity.
    apply existsb_occurs. }
  split; [apply Hiff|].
  intros pre said post Hsaid. apply Hiff.
  rewrite !lower_app, Hsaid. apply Exists_cons_hd. apply occurs_inside.
  apply str_in_occurs. vm_compute. reflexivity.
Qed.

(** The theorem at the sentence in capitals, inside a longer answer. *)
Lemma uncertainty_flagged_witness :
  "Response indicates uncertainity" ∈
    warnings (validate_answer
                ("Sorry. " ++ "I DON'T HAVE ENOUGH INFORMATION to answer this question based on the available documents." ++ " Thanks.")
                [mkDocument "the cat" 0]).
Proof.
  apply (uncertainty_flagged "" [mkDocument "the cat" 0]).
  vm_compute. reflexivity.
Defined.

End ValidatorMore.

(** ** The chain: the context text and the source list *)
Module GenerationProofs.
Import Text Generation Processor ProcessorProofs MonadFacts ValidatorMore.

Lemma string_app_nil_r (s : string) : s ++ "" = s.
Proof.
  induction s as [|x s IH]; [reflexivity|].
  change (String x (s ++ "") = String x s). by rewrite IH.
Qed.

Lemma concat_cons (sep b : string) (bs : list string) :
  String.concat sep (b :: bs) =
  b ++ match bs with [] => "" | _ => sep ++ String.concat sep bs end.
Proof. destruct bs; [by rewrite string_app_nil_r | reflexivity]. Qed.

(** A block of a joined text sits between what came before and what comes
    after it. *)
Lemma concat_middle (sep b : string) (bs1 bs2 : list string) :
  exists pre,
    String.concat sep (bs1 ++ b :: bs2)%list =
    pre ++ b ++ match bs2 with [] => "" | _ => sep ++ String.concat sep bs2 end.
Proof.
  induction bs1 as [|x bs1 [pre IH]].
  - exists "". cbn [app]. by rewrite concat_cons.
  - exists (x ++ sep ++ pre). cbn [app]. rewrite concat_cons, IH.
    destruct (bs1 ++ b :: bs2)%list eqn:E; [by destruct bs1|].
    by rewrite !string_app_assoc.
Qed.

Section WithStore.
Variable str_other : pyval -> string.
Variable store : gmap nat (gmap string pyval).

Lemma context_blocks_app (i : nat) (l1 l2 : list Document) :
  context_blocks str_other store i (l1 ++ l2) =
  (context_blocks str_other store i l1 ++
   context_blocks str_other store (i + length l1) l2)%list.
Proof.
  revert i. induction l1 as [|d l1 IH]; intros i; cbn [context_blocks app length].
  - by rewrite Nat.add_0_r.
  - rewrite IH. by replace (S i + length l1)%nat with (i + S (length l1))%nat by lia.
Qed.

Lemma context_blocks_at (i k : nat) (docs : list Document) (d : Document) :
  docs !! k = Some d ->
  context_blocks str_other store i docs =
  (context_blocks str_other store i (take k docs) ++
   context_block str_other store (i + k) d ::
   context_blocks str_other store (S (i + k)) (drop (S k) docs))%list.
Proof.
  intros Hk. rewrite <- (take_drop_middle docs k d Hk) at 1.
  rewrite context_blocks_app. cbn [context_blocks].
  assert (length (take k docs) = k) as ->.
  { rewrite length_take. apply lookup_lt_Some in Hk. lia. }
  reflexivity.
Qed.

End WithStore.

(** X8.  [_format_context] gives the empty text for no documents;
    otherwise the block of the document at position [k], numbered [k + 1]
    and carrying its source and content, occurs in the text, and the blocks
    of two documents occur in the order of the list. *)
Theorem format_context_keeps_order (str_other : pyval -> string)
    (store : gmap nat (gmap string pyval)) (docs : list Document) :
  (docs = [] -> format_context str_other store docs = "")
  /\ (forall k d,
        docs !! k = Some d ->
        exists pre post,
          format_context str_other store docs =
          pre ++ context_block str_other store (S k) d ++ post)
  /\ (forall k1 k2 d1 d2,
        (k1 < k2)%nat ->
        docs !! k1 = Some d1 ->
        docs !! k2 = Some d2 ->
        exists pre mid post,
          format_context str_other store docs =
          pre ++ context_block str_other store (S k1) d1 ++ mid ++
          context_block str_other store (S k2) d2 ++ post).
Proof.
  split; [by intros ->|]. split.
  - intros k d Hk. unfold format_context.
    rewrite (context_blocks_at _ _ 1 k docs d Hk).
    destruct (concat_middle newline (context_block str_other store (1 + k) d)
                (context_blocks str_other store 1 (take k docs))
                (context_blocks str_other store (S (1 + k)) (drop (S k) docs)))
      as [pre Hpre].
    rewrite Hpre. by eexists _, _.
  - intros k1 k2 d1 d2 Hlt Hk1 Hk2. unfold format_context.
    rewrite (context_blocks_at _ _ 1 k1 docs d1 Hk1).
    assert (Hk2' : drop (S k1) docs !! (k2 - S k1)%nat = Some d2).
    { rewrite lookup_drop. by replace (S k1 + (k2 - S k1))%nat with k2 by lia. }
    rewrite (context_blocks_at _ _ (S (1 + k1)) _ _ d2 Hk2').
    replace (S (1 + k1) + (k2 - S k1))%nat with (S k2) by lia.
    match goal with
    | |- context [String.concat _ (?b1 ++ ?x :: ?b2 ++ ?y :: ?b3)%list] =>
        destruct (concat_middle newline x b1 (b2 ++ y :: b3)%list) as [pre Hpre];
        destruct (concat_middle newline y b2 b3) as [pre' Hpre']
    end.
    rewrite Hpre, Hpre'.
    match goal with
    | |- context [match ?l with [] => _ | _ => _ end] =>
        destruct l eqn:E; [by destruct (context_blocks _ _ _ (take _ (drop _ _)))|]
    end.
    exists pre, (newline ++ pre'). eexists.
    by rewrite !string_app_assoc.
Qed.

(** The theorem at two documents, the first with a source. *)
Lemma format_context_keeps_order_witness :
  exists pre mid post,
    format_context (fun _ => "?") {[ 0%nat := {[ "source" := PStr "a.txt" ]} ]}
      [mkDocument "first" 0; mkDocument "second" 1] =
    pre ++ context_block (fun _ => "?") {[ 0%nat := {[ "source" := PStr "a.txt" ]} ]} 1
             (mkDocument "first" 0) ++ mid ++
    context_block (fun _ => "?") {[ 0%nat := {[ "source" := PStr "a.txt" ]} ]} 2
      (mkDocument "second" 1) ++ post.
Proof.
  apply (format_context_keeps_order (fun _ => "?")
           {[ 0%nat := {[ "source" := PStr "a.txt" ]} ]}
           [mkDocument "first" 0; mkDocument "second" 1] ).
  - lia.
  - reflexivity.
  - reflexivity.
Defined.

(** A generated field that the custom metadata does not carry reads as
    generated. *)
Lemma chunk_fields_generated (file_path file_hash : string) (i total : nat)
    (processed_at : string) (chunk : Document) (custom old : gmap string pyval)
    (key : string) (v : pyval) :
  custom !! key = None ->
  (list_to_map
     [ ("source", PStr file_path);
       ("file_name", PStr (name file_path));
       ("file_type", PStr (suffix file_path));
       ("file_hash", PStr file_hash);
       ("chunk_index", PInt (Z.of_nat i));
       ("total_chunks", PInt (Z.of_nat total));
       ("processed_at", PStr processed_at);
       ("chunk_size", PInt (Z.of_nat (len (page_content chunk)))) ]
     : gmap string pyval) !! key = Some v ->
  (chunk_fields file_path file_hash i total processed_at chunk custom ∪ old) !! key
  = Some v.
Proof.
  intros Hc Hg. unfold chunk_fields.
  erewrite lookup_union_Some_l; [reflexivity|].
  by rewrite lookup_union_r.
Qed.

(** X9.  [_extract_sources] on the chunks that [_enrich_metadata] has just
    returned: one entry per chunk, in order, and unless the custom metadata
    overrides these keys, entry [i] carries the file's name, the path and
    the chunk index [i], none of the fallbacks.  The chunks own their
    metadata dictionaries. *)
Theorem sources_of_processed_chunks `{Env} (chunks : list Document)
    (file_path : string) (custom : gmap string pyval) (w w' : world) :
  custom !! "file_name" = None ->
  custom !! "source" = None ->
  custom !! "chunk_index" = None ->
  NoDup (map metadata chunks) ->
  enrich_metadata chunks file_path custom w = (Ok chunks, w') ->
  length (extract_sources (store w') chunks) = length chunks
  /\ forall i s,
       extract_sources (store w') chunks !! i = Some s ->
       file_name s = PStr (name file_path)
       /\ source s = PStr file_path
       /\ chunk_index s = PInt (Z.of_nat i).
Proof.
  intros Hn Hs Hi Hnd Hrun. split; [apply length_map|].
  intros i s Hlook. unfold extract_sources in Hlook.
  rewrite list_lookup_fmap in Hlook.
  destruct (chunks !! i) as [chunk|] eqn:Hchunk; [|discriminate].
  injection Hlook as <-. cbn [file_name source chunk_index].
  unfold enrich_metadata in Hrun. rewrite bind_run in Hrun.
  unfold calculate_file_hash in Hrun.
  destruct (fs !! file_path) as [data|]; [|discriminate].
  cbn in Hrun. rewrite bind_run in Hrun.
  destruct (enrich_loop_run file_path (sha256_hexdigest (hash_loop data []))
              (length chunks) custom chunks 0%nat w)
    as (w'' & Hloop & _ & _ & Hdone).
  rewrite Hloop in Hrun. injection Hrun as <-.
  destruct (Hdone Hnd i chunk Hchunk) as (ts & Hts).
  unfold metadata_get. rewrite Hts. cbn [default from_option id Nat.add].
  set (old := default ∅ (store w !! metadata chunk)).
  pose proof (chunk_fields_generated file_path (sha256_hexdigest (hash_loop data []))
                i (length chunks) ts chunk custom old "file_name" _ Hn eq_refl) as H1.
  pose proof (chunk_fields_generated file_path (sha256_hexdigest (hash_loop data []))
                i (length chunks) ts chunk custom old "source" _ Hs eq_refl) as H2.
  pose proof (chunk_fields_generated file_path (sha256_hexdigest (hash_loop data []))
                i (length chunks) ts chunk custom old "chunk_index" _ Hi eq_refl) as H3.
  by rewrite H1, H2, H3.
Qed.

(** The theorem at the two chunks of a three-byte text file. *)
Lemma sources_of_processed_chunks_witness :
  length (extract_sources
            (store (snd (@enrich_metadata Samples.sample_env
                           [mkDocument "aa" 1; mkDocument "a" 2] "docs/notes.txt" ∅
                           Samples.empty_world)))
            [mkDocument "aa" 1; mkDocument "a" 2]) = 2%nat
  /\ forall i s,
       extract_sources
         (store (snd (@enrich_metadata Samples.sample_env
                        [mkDocument "aa" 1; mkDocument "a" 2] "docs/notes.txt" ∅
                        Samples.empty_world)))
         [mkDocument "aa" 1; mkDocument "a" 2] !! i = Some s ->
       file_name s = PStr "notes.txt"
       /\ source s = PStr "docs/notes.txt"
       /\ chunk_index s = PInt (Z.of_nat i).
Proof.
  apply (@sources_of_processed_chunks Samples.sample_env
           [mkDocument "aa" 1; mkDocument "a" 2] "docs/notes.txt" ∅
           Samples.empty_world).
  - reflexivity.
  - reflexivity.
  - reflexivity.
  - apply (bool_decide_unpack _). vm_compute. exact I.
  - vm_compute. reflexivity.
Defined.

End GenerationProofs.

(** ** The statistics of the enricher and the query validator *)
Module StatisticsProofs.
Import Text Statistics ValidatorMore.

Lemma split_runs_length (sep : ascii -> bool) (s cur : string) (in_sep : bool) :
  (1 <= length (split_runs sep s cur in_sep) <= String.length s + 1)%nat.
Proof.
  revert cur in_sep. induction s as [|c s IH]; intros cur in_sep; cbn [split_runs].
  - simpl. lia.
  - destruct (sep c); [destruct in_sep|].
    + specialize (IH "" true). simpl. lia.
    + specialize (IH "" true). simpl. lia.
    + specialize (IH (cur ++ String c "") false). simpl. lia.
Qed.

Lemma split_blank_step (c d : ascii) (s cur : string) :
  split_blank (String c (String d s)) cur =
  if is_newline c && is_newline d then cur :: split_blank s ""
  else split_blank (String d s) (cur ++ String c "").
Proof. reflexivity. Qed.

Lemma split_blank_length (s : string) :
  (forall cur, 1 <= length (split_blank s cur)
               /\ 2 * (length (split_blank s cur) - 1) <= String.length s)%nat
  /\ (forall c cur, 1 <= length (split_blank (String c s) cur)
                 /\ 2 * (length (split_blank (String c s) cur) - 1)
                    <= S (String.length s))%nat.
Proof.
  induction s as [|d s [IH1 IH2]].
  - split; intros; simpl; lia.
  - split; [intros cur; apply IH2|].
    intros c cur. rewrite split_blank_step.
    destruct (is_newline c && is_newline d).
    + specialize (IH1 ""). simpl. lia.
    + specialize (IH2 d (cur ++ String c "")). simpl String.length. lia.
Qed.

(** X10.  [_calculate_statistics] fills its four counts so that the
    words are no more than the characters, the sentences lie between 1 and
    the characters plus one, and the paragraphs are at least 1 with two
    characters for each further one.  The empty text has 0 characters,
    0 words, and still 1 sentence and 1 paragraph. *)
Theorem statistics_bounds (text : string) :
  (exists c w s p : nat,
     calculate_statistics text !! "char_count" = Some (PInt (Z.of_nat c))
     /\ calculate_statistics text !! "word_count" = Some (PInt (Z.of_nat w))
     /\ calculate_statistics text !! "sentence_count" = Some (PInt (Z.of_nat s))
     /\ calculate_statistics text !! "paragraph_count" = Some (PInt (Z.of_nat p))
     /\ c = len text
     /\ (w <= c)%nat
     /\ (1 <= s <= c + 1)%nat
     /\ (1 <= p)%nat /\ (2 * (p - 1) <= c)%nat)
  /\ calculate_statistics "" =
     list_to_map [ ("char_count", PInt 0); ("word_count", PInt 0);
                   ("sentence_count", PInt 1); ("paragraph_count", PInt 1) ].
Proof.
  split; [|reflexivity].
  exists (len text), (length (split text)), (length (split_sentences text)),
    (length (split_paragraphs text)).
  repeat (split; [reflexivity|]).
  split; [apply word_count_le_len|].
  split; [apply split_runs_length|].
  destruct (split_blank_length text) as [Hp _]. specialize (Hp "").
  split; apply Hp.
Qed.

Lemma lstrip_spec (s : string) :
  exists pre, s = pre ++ lstrip s /\ blank pre = true.
Proof.
  induction s as [|c s (pre & Hs & Hpre)]; [by exists ""|].
  cbn [lstrip]. destruct (is_space c) eqn:Hc.
  - exists (String c pre). split; [|by cbn [blank]; rewrite Hc].
    change (String c s = String c (pre ++ lstrip s)). by rewrite <- Hs.
  - by exists "".
Qed.

Lemma lstrip_head (s : string) (c : ascii) (r : string) :
  lstrip s = String c r -> is_space c = false.
Proof.
  induction s as [|d s IH]; [discriminate|]. cbn [lstrip].
  destruct (is_space d) eqn:Hd; [exact IH|]. by intros [= <- _].
Qed.

Lemma rstrip_spec (s : string) :
  exists post, s = rstrip s ++ post /\ blank post = true.
Proof.
  induction s as [|c s (post & Hs & Hpost)]; [by exists ""|].
  cbn [rstrip]. destruct (rstrip s) as [|d r] eqn:Hr.
  - destruct (is_space c) eqn:Hc.
    + exists (String c post). split; [|by cbn [blank]; rewrite Hc].
      by rewrite Hs at 1.
    + exists post. split; [|exact Hpost]. by rewrite Hs at 1.
  - exists post. split; [|exact Hpost].
    change (String c s = String c (String d r ++ post)). by rewrite <- Hs.
Qed.

Lemma rstrip_last (s a : string) (c : ascii) :
  rstrip s = a ++ String c "" -> is_space c = false.
Proof.
  revert a. induction s as [|d s IH]; intros a; cbn [rstrip].
  - by destruct a.
  - destruct (rstrip s) as [|e r] eqn:Hr.
    + destruct (is_space d) eqn:Hd; [by destruct a|].
      destruct a as [|x a]; [by intros [= <-]|].
      intros [= _ Ha]. by destruct a.
    + destruct a as [|x a]; [discriminate|].
      intros [= _ Ha]. by apply (IH a).
Qed.

Lemma rstrip_head (c : ascii) (r : string) :
  is_space c = false -> exists r', rstrip (String c r) = String c r'.
Proof.
  intros Hc. cbn [rstrip]. destruct (rstrip r); [rewrite Hc|]; by eexists.
Qed.

Lemma rstrip_fixed (s : string) :
  (forall a c, s = a ++ String c "" -> is_space c = false) -> rstrip s = s.
Proof.
  induction s as [|d s IH]; [reflexivity|]. intros Hlast. cbn [rstrip].
  destruct s as [|e s].
  - cbn [rstrip]. by rewrite (Hlast "" d eq_refl).
  - rewrite IH.
    + reflexivity.
    + intros a c Ha. apply (Hlast (String d a) c).
      change (String d (String e s) = String d (a ++ String c "")). by rewrite Ha.
Qed.

Lemma runs_blank (p : ascii -> bool) (post cur : string) :
  (forall c, is_space c = true -> p c = false) ->
  blank post = true -> runs p post cur = flush cur.
Proof.
  intros Hp. revert cur. induction post as [|c post IH]; intros cur Hb; [reflexivity|].
  cbn [blank] in Hb. apply andb_true_iff in Hb as [Hc Hb].
  cbn [runs]. rewrite (Hp c Hc), (IH "" Hb). cbn [flush]. apply app_nil_r.
Qed.

Lemma runs_app_blank (p : ascii -> bool) (s post cur : string) :
  (forall c, is_space c = true -> p c = false) ->
  blank post = true -> runs p (s ++ post) cur = runs p s cur.
Proof.
  intros Hp Hb. revert cur. induction s as [|c s IH]; intros cur.
  - by apply runs_blank.
  - change (String c s ++ post) with (String c (s ++ post)). cbn [runs].
    by rewrite !IH.
Qed.

Lemma runs_blank_app (p : ascii -> bool) (pre s : string) :
  (forall c, is_space c = true -> p c = false) ->
  blank pre = true -> runs p (pre ++ s) "" = runs p s "".
Proof.
  intros Hp. induction pre as [|c pre IH]; intros Hb; [reflexivity|].
  cbn [blank] in Hb. apply andb_true_iff in Hb as [Hc Hb].
  change (String c pre ++ s) with (String c (pre ++ s)). cbn [runs].
  rewrite (Hp c Hc). cbn [flush app]. by apply IH.
Qed.

Lemma blank_lstrip (s : string) : blank s = true <-> lstrip s = "".
Proof.
  induction s as [|c s IH]; [done|]. cbn [blank lstrip].
  destruct (is_space c); cbn [andb]; [exact IH | done].
Qed.

Lemma strip_empty (s : string) : strip s = "" <-> blank s = true.
Proof.
  unfold strip. rewrite blank_lstrip. split.
  - intros Hr. destruct (lstrip s) as [|c r] eqn:Hl; [reflexivity|].
    pose proof (lstrip_head _ _ _ Hl) as Hc.
    destruct (rstrip_head c r Hc) as [r' Hr']. congruence.
  - by intros ->.
Qed.

(** X11.  [validate_query] rejects exactly the texts made of whitespace
    only.  What it accepts is returned without its leading and trailing
    whitespace and nothing else removed: the result is not empty, starts
    and ends with a character that is no whitespace, passes the validator
    unchanged, and has the same words as the input. *)
Theorem validate_query_strips (v : string) :
  (validate_query v = None <-> blank v = true)
  /\ (forall q,
        validate_query v = Some q ->
        q <> ""
        /\ (exists pre post, v = pre ++ q ++ post /\ blank pre = true /\ blank post = true)
        /\ (forall c r, q = String c r -> is_space c = false)
        /\ (forall a c, q = a ++ String c "" -> is_space c = false)
        /\ validate_query q = Some q
        /\ split q = split v).
Proof.
  assert (Hsome : forall q, validate_query v = Some q -> q = strip v /\ q <> "").
  { unfold validate_query. intros q. destruct (strip v); [discriminate|].
    by intros [= <-]. }
  split.
  - rewrite <- strip_empty. unfold validate_query.
    destruct (strip v); split; congruence.
  - intros q Hq. destruct (Hsome q Hq) as [-> Hne]. split; [exact Hne|].
    destruct (lstrip_spec v) as (pre & Hv & Hpre).
    destruct (rstrip_spec (lstrip v)) as (post & Hl & Hpost).
    fold (strip v) in Hl.
    assert (Hhead : forall c r, strip v = String c r -> is_space c = false).
    { intros c r Hs. unfold strip in Hs.
      destruct (lstrip v) as [|d l] eqn:Hlv; [discriminate|].
      pose proof (lstrip_head _ _ _ Hlv) as Hd.
      destruct (rstrip_head d l Hd) as [r' Hr'].
      rewrite Hr' in Hs. by injection Hs as <- _. }
    assert (Hlast : forall a c, strip v = a ++ String c "" -> is_space c = false).
    { intros a c. apply rstrip_last. }
    assert (Hnsp : forall c, is_space c = true -> negb (is_space c) = false).
    { by intros c ->. }
    split; [|split; [exact Hhead | split; [exact Hlast | split]]].
    + exists pre, post. split; [|by split]. by rewrite <- Hl.
    + assert (Hfix : strip (strip v) = strip v).
      { unfold strip at 1. destruct (strip v) as [|c r] eqn:Hs; [reflexivity|].
        cbn [lstrip]. rewrite (Hhead c r eq_refl). by apply rstrip_fixed. }
      unfold validate_query. rewrite Hfix. by destruct (strip v).
    + unfold split.
      transitivity (runs (fun c => negb (is_space c)) (pre ++ strip v ++ post) "").
      * rewrite (runs_blank_app _ _ _ Hnsp Hpre).
        by rewrite (runs_app_blank _ _ _ _ Hnsp Hpost).
      * by rewrite <- Hl, <- Hv.
Qed.

(** The theorem at a query with blanks around it. *)
Lemma validate_query_strips_witness :
  split "what is RAG?" = split "  what is RAG?  ".
Proof.
  apply (validate_query_strips "  what is RAG?  "). reflexivity.
Defined.

End StatisticsProofs.

(** ** The processor: what the enrichment writes and when a call succeeds *)
Module ProcessorMore.
Import Text Config Processor ProcessorSpec ProcessorProofs MonadFacts.

Lemma chunk_fields_custom (file_path file_hash : string) (i total : nat)
    (processed_at : string) (chunk : Document) (custom old : gmap string pyval)
    (key : string) (v : pyval) :
  custom !! key = Some v ->
  (chunk_fields file_path file_hash i total processed_at chunk custom ∪ old) !! key
  = Some v.
Proof.
  intros Hc. unfold chunk_fields.
  erewrite lookup_union_Some_l; [reflexivity|].
  by erewrite lookup_union_Some_l.
Qed.

Lemma chunk_fields_other (file_path file_hash : string) (i total : nat)
    (processed_at : string) (chunk : Document) (custom old : gmap string pyval)
    (key : string) :
  key ∉ generated_keys ->
  custom !! key = None ->
  (chunk_fields file_path file_hash i total processed_at chunk custom ∪ old) !! key
  = old !! key.
Proof.
  intros Hk Hc. unfold chunk_fields.
  rewrite lookup_union_r; [reflexivity|].
  rewrite lookup_union_r by exact Hc.
  apply not_elem_of_list_to_map_1. cbn [fmap list_fmap fst]. exact Hk.
Qed.

Section WithEnv.
Context `{Env}.

(** The loop of [_enrich_metadata], with the clock: the chunk at position
    [j] is stamped at tick [tick w + j]. *)
Lemma enrich_loop_clock (file_path file_hash : string) (total : nat)
    (custom : gmap string pyval) (chunks : list Document) :
  forall (i : nat) (w : world),
  exists w',
    enrich_loop file_path file_hash total custom i chunks w = (Ok tt, w')
    /\ events w' = events w
    /\ tick w' = (tick w + length chunks)%nat
    /\ (forall ref, ref ∉ map metadata chunks -> store w' !! ref = store w !! ref)
    /\ (NoDup (map metadata chunks) ->
        forall j chunk, chunks !! j = Some chunk ->
          store w' !! metadata chunk =
          Some (chunk_fields file_path file_hash (i + j) total
                  (isoformat (tick w + j)) chunk custom
                ∪ default ∅ (store w !! metadata chunk))).
Proof.
  induction chunks as [|chunk rest IH]; intros i w.
  - exists w. split; [reflexivity|]. split; [reflexivity|].
    split; [cbn; lia|]. split; [done|].
    intros _ j c Hj. by rewrite lookup_nil in Hj.
  - cbn [enrich_loop]. rewrite bind_run. unfold now at 1.
    rewrite bind_run. unfold update_metadata at 1, modify at 1.
    cbn [store tick events].
    match goal with |- context [enrich_loop _ _ _ _ _ rest ?x] => set (w2 := x) end.
    destruct (IH (S i) w2) as (w' & Hrun & Hev & Htick & Hother & Hdone).
    exists w'. split; [exact Hrun|]. split; [by rewrite Hev|].
    split; [rewrite Htick; subst w2; cbn [tick length]; lia|]. split.
    + intros ref Hnot. cbn [map] in Hnot. apply not_elem_of_cons in Hnot as [Hne Hnot].
      rewrite Hother by exact Hnot. subst w2. cbn [store].
      by rewrite lookup_insert_ne.
    + intros Hnd j c Hj. cbn [map] in Hnd. apply NoDup_cons in Hnd as [Hfresh Hnd].
      destruct j as [|j]; cbn in Hj.
      * injection Hj as <-.
        rewrite Hother by exact Hfresh. subst w2. cbn [store].
        rewrite lookup_insert_eq. by rewrite !Nat.add_0_r.
      * rewrite (Hdone Hnd j c Hj). subst w2. cbn [store tick].
        rewrite lookup_insert_ne.
        { by replace (S i + j)%nat with (i + S j)%nat by lia;
            replace (S (tick w) + j)%nat with (tick w + S j)%nat by lia. }
        intros Heq. apply Hfresh. rewrite Heq.
        apply list_elem_of_fmap. exists c. split; [done|].
        by apply list_elem_of_lookup_2 in Hj.
Qed.

(** The same without assuming that the chunks own their dictionaries:
    every dictionary of a chunk ends with the file hash, or with the custom
    value of that key. *)
Lemma enrich_loop_writes (file_path file_hash : string) (total : nat)
    (custom : gmap string pyval) (chunks : list Document) :
  forall (i : nat) (w : world),
  exists w',
    enrich_loop file_path file_hash total custom i chunks w = (Ok tt, w')
    /\ events w' = events w
    /\ tick w' = (tick w + length chunks)%nat
    /\ (forall ref, ref ∉ map metadata chunks -> store w' !! ref = store w !! ref)
    /\ (forall ref, ref ∈ map metadata chunks ->
          exists md, store w' !! ref = Some md
                     /\ md !! "file_hash" =
                        Some (default (PStr file_hash) (custom !! "file_hash"))).
Proof.
  induction chunks as [|chunk rest IH]; intros i w.
  - exists w. split; [reflexivity|]. split; [reflexivity|].
    split; [cbn; lia|]. split; [done|].
    intros ref Hin. by apply elem_of_nil in Hin.
  - cbn [enrich_loop]. rewrite bind_run. unfold now at 1.
    rewrite bind_run. unfold update_metadata at 1, modify at 1.
    cbn [store tick events].
    match goal with |- context [enrich_loop _ _ _ _ _ rest ?x] => set (w2 := x) end.
    destruct (IH (S i) w2) as (w' & Hrun & Hev & Htick & Hother & Hin).
    exists w'. split; [exact Hrun|]. split; [by rewrite Hev|].
    split; [rewrite Htick; subst w2; cbn [tick length]; lia|]. split.
    + intros ref Hnot. cbn [map] in Hnot. apply not_elem_of_cons in Hnot as [Hne Hnot].
      rewrite Hother by exact Hnot. subst w2. cbn [store].
      by rewrite lookup_insert_ne.
    + intros ref Href.
      destruct (decide (ref ∈ map metadata rest)) as [Hrest | Hrest];
        [by apply Hin|].
      cbn [map] in Href. apply elem_of_cons in Href as [-> | Href]; [|done].
      rewrite Hother by exact Hrest. subst w2. cbn [store].
      rewrite lookup_insert_eq. eexists. split; [reflexivity|].
      destruct (custom !! "file_hash") as [v|] eqn:Hc; cbn [default from_option id].
      * by apply chunk_fields_custom.
      * by apply GenerationProofs.chunk_fields_generated.
Qed.

End WithEnv.

(** X12.  After [_enrich_metadata], in the dictionary of each chunk (the
    chunks owning their dictionaries): every custom entry is there with the
    custom value, also under a generated key; a key that is neither
    generated nor custom keeps the value the chunk had; and where the
    custom metadata is silent, chunk_size is the length of the chunk's
    text, file_type the suffix of the path and processed_at the time of
    the clock at that chunk. *)
Theorem custom_metadata_wins `{Env} (chunks : list Document) (file_path : string)
    (custom : gmap string pyval) (w w' : world) :
  NoDup (map metadata chunks) ->
  enrich_metadata chunks file_path custom w = (Ok chunks, w') ->
  forall i chunk,
    chunks !! i = Some chunk ->
    exists md,
      store w' !! metadata chunk = Some md
      /\ (forall key v, custom !! key = Some v -> md !! key = Some v)
      /\ (forall key,
            key ∉ generated_keys -> custom !! key = None ->
            md !! key = default ∅ (store w !! metadata chunk) !! key)
      /\ (custom !! "chunk_size" = None ->
          md !! "chunk_size" = Some (PInt (Z.of_nat (len (page_content chunk)))))
      /\ (custom !! "file_type" = None ->
          md !! "file_type" = Some (PStr (suffix file_path)))
      /\ (custom !! "processed_at" = None ->
          md !! "processed_at" = Some (PStr (isoformat (tick w + i)))).
Proof.
  intros Hnd Hrun i chunk Hchunk.
  unfold enrich_metadata in Hrun. rewrite bind_run in Hrun.
  unfold calculate_file_hash in Hrun.
  destruct (fs !! file_path) as [data|]; [|discriminate].
  cbn in Hrun. rewrite bind_run in Hrun.
  destruct (enrich_loop_clock file_path (sha256_hexdigest (hash_loop data []))
              (length chunks) custom chunks 0%nat w)
    as (w'' & Hloop & _ & _ & _ & Hdone).
  rewrite Hloop in Hrun. injection Hrun as <-.
  eexists. split; [exact (Hdone Hnd i chunk Hchunk)|]. cbn [Nat.add].
  split; [intros key v; apply chunk_fields_custom|].
  split; [intros key; apply chunk_fields_other|].
  split; [|split]; intros Hc;
    by apply GenerationProofs.chunk_fields_generated.
Qed.

(** The theorem at an upload whose metadata names its own source. *)
Lemma custom_metadata_wins_witness :
  exists md,
    store (snd (@enrich_metadata Samples.sample_env
                  [mkDocument "aa" 1; mkDocument "a" 2] "docs/notes.txt"
                  {[ "source" := PStr "intranet" ]} Samples.empty_world))
      !! 1%nat = Some md
    /\ md !! "source" = Some (PStr "intranet")
    /\ md !! "chunk_size" = Some (PInt 2).
Proof.
  destruct (@custom_metadata_wins Samples.sample_env
              [mkDocument "aa" 1; mkDocument "a" 2] "docs/notes.txt"
              {[ "source" := PStr "intranet" ]} Samples.empty_world
              (snd (@enrich_metadata Samples.sample_env
                      [mkDocument "aa" 1; mkDocument "a" 2] "docs/notes.txt"
                      {[ "source" := PStr "intranet" ]} Samples.empty_world))
              ltac:(apply (bool_decide_unpack _); vm_compute; exact I)
              ltac:(vm_compute; reflexivity)
              0%nat (mkDocument "aa" 1) eq_refl)
    as (md & Hmd & Hcustom & _ & Hsize & _).
  exists md. split; [exact Hmd|]. split.
  - apply Hcustom. reflexivity.
  - apply Hsize. reflexivity.
Defined.

(** X13.  [_enrich_metadata] raises [OSError] on a path without a file and
    changes nothing.  On a file it returns the chunks it was given, calls
    neither loader nor splitter, reads the clock once for each chunk,
    leaves every dictionary that belongs to no chunk as it was, and leaves
    in every chunk's dictionary a file_hash, the custom one if there is
    one and the digest of the file otherwise; this also when chunks share
    a dictionary. *)
Theorem enrichment_frame `{Env} (chunks : list Document) (file_path : string)
    (custom : gmap string pyval) (w : world) :
  (fs !! file_path = None ->
   enrich_metadata chunks file_path custom w = (Raise OSError, w))
  /\ (forall data,
        fs !! file_path = Some data ->
        exists w',
          enrich_metadata chunks file_path custom w = (Ok chunks, w')
          /\ events w' = events w
          /\ tick w' = (tick w + length chunks)%nat
          /\ (forall ref, ref ∉ map metadata chunks ->
                          store w' !! ref = store w !! ref)
          /\ (forall ref, ref ∈ map metadata chunks ->
                          exists md, store w' !! ref = Some md
                                     /\ md !! "file_hash" =
                                        Some (default (PStr (sha256_hexdigest data))
                                                (custom !! "file_hash")))).
Proof.
  split.
  - intros Hfs. unfold enrich_metadata. rewrite bind_run. unfold calculate_file_hash.
    by rewrite Hfs.
  - intros data Hfs. unfold enrich_metadata. rewrite bind_run.
    rewrite (calculate_file_hash_run _ data) by exact Hfs.
    rewrite bind_run.
    destruct (enrich_loop_writes file_path (sha256_hexdigest data) (length chunks)
                custom chunks 0%nat w)
      as (w' & Hloop & Hev & Htick & Hother & Hin).
    rewrite Hloop. exists w'. repeat (split; [done|]). exact Hin.
Qed.

Lemma loaders_suffixes (ext : string) (cls : loader_class) :
  loaders !! ext = Some cls -> ext ∈ [".pdf"; ".docx"; ".txt"; ".md"].
Proof.
  unfold loaders. intros Hl. apply elem_of_list_to_map_2 in Hl.
  rewrite !elem_of_cons in Hl. rewrite !elem_of_cons.
  destruct Hl as [[= -> _] | [[= -> _] | [[= -> _] | [[= -> _] | Hl]]]]; auto.
  by apply elem_of_nil in Hl.
Qed.

(** X14.  [process_document] returns chunks exactly when the file exists,
    its suffix is supported and mapped to a loader, its size is within the
    limit, and the loader, the splitter and the enrichment loop return one
    after the other in the worlds they leave.  A call that returns was on
    a path ending in .pdf, .docx, .txt or .md. *)
Theorem process_document_success `{Env} (file_path : string)
    (custom : option (gmap string pyval)) (w w' : world) (chunks : list Document) :
  (process_document file_path custom w = (Ok chunks, w') <->
   exists data cls documents w1 w2,
     fs !! file_path = Some data
     /\ suffix file_path ∈ SUPPORTED_FORMATS settings
     /\ (Z.of_nat (length data) <= MAX_DOCUMENT_SIZE_MB settings * 1048576)%Z
     /\ loaders !! suffix file_path = Some cls
     /\ run_loader cls file_path
          (mkWorld (store w) (tick w) (events w ++ [ELoad cls file_path]))
        = (Ok documents, w1)
     /\ run_splitter documents (mkWorld (store w1) (tick w1) (events w1 ++ [ESplit]))
        = (Ok chunks, w2)
     /\ enrich_loop file_path (sha256_hexdigest data) (length chunks)
          (default ∅ custom) 0 chunks w2 = (Ok tt, w'))
  /\ (process_document file_path custom w = (Ok chunks, w') ->
      suffix file_path ∈ [".pdf"; ".docx"; ".txt"; ".md"]).
Proof.
  assert (Hiff : process_document file_path custom w = (Ok chunks, w') <->
   exists data cls documents w1 w2,
     fs !! file_path = Some data
     /\ suffix file_path ∈ SUPPORTED_FORMATS settings
     /\ (Z.of_nat (length data) <= MAX_DOCUMENT_SIZE_MB settings * 1048576)%Z
     /\ loaders !! suffix file_path = Some cls
     /\ run_loader cls file_path
          (mkWorld (store w) (tick w) (events w ++ [ELoad cls file_path]))
        = (Ok documents, w1)
     /\ run_splitter documents (mkWorld (store w1) (tick w1) (events w1 ++ [ESplit]))
        = (Ok chunks, w2)
     /\ enrich_loop file_path (sha256_hexdigest data) (length chunks)
          (default ∅ custom) 0 chunks w2 = (Ok tt, w')).
  { rewrite process_document_run.
    destruct (validate_file_run file_path w) as [[Hv Hwhy] | (Hv & Hm & Hu & Hl)];
      rewrite Hv; [|rewrite load_document_run].
    { split; [discriminate|].
      intros (data & cls & documents & w1 & w2 & Hfs & Hs & Hsize & _). exfalso.
      destruct Hwhy as [Hmiss | [Huns | (data' & Hfs' & Hbig)]].
      - unfold missing in Hmiss. congruence.
      - by apply Huns.
      - rewrite Hfs in Hfs'. injection Hfs' as <-. lia. }
    unfold missing in Hm. destruct (fs !! file_path) as [data|] eqn:Hfs; [|done].
    assert (Hsup : suffix file_path ∈ SUPPORTED_FORMATS settings).
    { destruct (decide (suffix file_path ∈ SUPPORTED_FORMATS settings)); [done|].
      by destruct Hu. }
    assert (Hsize : (Z.of_nat (length data) <=
                     MAX_DOCUMENT_SIZE_MB settings * 1048576)%Z).
    { apply Z.nlt_ge. intros Hbig. apply Hl. by exists data. }
    destruct (loaders !! suffix file_path) as [cls|] eqn:Hcls.
    2: { split; [discriminate|]. by intros (? & ? & ? & ? & ? & _ & _ & _ & [=] & _). }
    destruct (run_loader cls file_path _) as [[documents|e] w1] eqn:Hload.
    2: { split; [discriminate|].
         intros (? & ? & ? & ? & ? & _ & _ & _ & [= <-] & Hr & _). congruence. }
    rewrite split_documents_run.
    destruct (run_splitter documents _) as [[chunks0|e] w2] eqn:Hsplit.
    2: { split; [discriminate|].
         intros (? & ? & ? & ? & ? & _ & _ & _ & [= <-] & Hr & Hs & _).
         rewrite Hload in Hr. injection Hr as <- <-. congruence. }
    destruct (enrich_metadata_run chunks0 file_path (default ∅ custom) data w2 Hfs)
      as (w3 & Henrich & Hloop).
    rewrite Henrich. split.
    - intros [= <- <-]. by exists data, cls, documents, w1, w2.
    - intros (data' & cls' & documents' & w1' & w2' & [= <-] & _ & _ & [= <-] & Hr & Hs
              & Hloop').
      rewrite Hload in Hr. injection Hr as <- <-.
      rewrite Hsplit in Hs. injection Hs as <- <-.
      rewrite Hloop in Hloop'. by injection Hloop' as <-. }
  split; [exact Hiff|].
  intros Hrun. apply Hiff in Hrun as (data & cls & _ & _ & _ & _ & _ & _ & Hcls & _).
  by apply loaders_suffixes in Hcls.
Qed.

End ProcessorMore.

(** ** The cache on a server that answers *)
Module CacheMore.
Import Text Config Cache CacheSpec CacheProofs MonadFacts.

Section WithRuntime.
Context {rt : Runtime}.
Variable settings : Settings.

Lemma client_call_healthy {A} (e : event)
    (act : gmap string string -> A * gmap string string) (st : state) :
  faults (srv st) = [] ->
  client_call e act st =
  (Ok (fst (act (kv (srv st)))),
   mkState (self st)
     (mkServer (snd (act (kv (srv st)))) [] (log (srv st) ++ [e]))).
Proof.
  intros Hf. unfold client_call. rewrite Hf. by destruct (act (kv (srv st))).
Qed.

(** On a server that answers, [connect] leaves an enabled manager with a
    client, after one [from_url] and one [ping]. *)
Lemma prepare_healthy (st : state) :
  ENABLE_CACHE settings = true ->
  faults (srv st) = [] ->
  prepare settings st =
  (Ok tt,
   mkState (mkCache (Some tt) true (CACHE_TTL_SECONDS settings))
     (mkServer (kv (srv st)) []
        (log (srv st) ++ [EFromUrl (REDIS_URL settings); EPing]))).
Proof.
  intros Hen Hf. unfold prepare, connect, new_cache.
  rewrite bind_run. cbn [set_self modify]. rewrite bind_run. cbn [gets self enabled].
  rewrite Hen. cbn [negb]. rewrite try_except_run, bind_run.
  unfold redis_from_url. rewrite client_call_healthy by exact Hf.
  cbn [fst snd self srv]. rewrite bind_run. cbn [set_self modify ttl enabled].
  unfold redis_ping. rewrite client_call_healthy by reflexivity.
  cbn [fst snd self srv kv log]. by rewrite <- app_assoc.
Qed.

Lemma get_healthy (key : string) (st : state) :
  unusable (self st) = false ->
  faults (srv st) = [] ->
  get key st =
  (Ok (decoded (kv (srv st) !! key)),
   mkState (self st) (after [EGet key] (kv (srv st)) (srv st))).
Proof.
  intros Hus Hf. unfold get. rewrite bind_run. cbn [gets]. rewrite Hus.
  rewrite try_except_run, bind_run. unfold redis_get.
  rewrite client_call_healthy by exact Hf. cbn [fst snd]. unfold decoded, after.
  destruct (kv (srv st) !! key) as [[|a v]|]; try reflexivity.
  unfold lift. by destruct (json_loads (String a v)).
Qed.

Lemma set_healthy (key : string) (value : pyval) (ttl_arg : option Z) (st : state) :
  unusable (self st) = false ->
  faults (srv st) = [] ->
  set key value ttl_arg st =
  match json_dumps value with
  | Ok serialized =>
      (Ok true,
       mkState (self st)
         (after [ESetex key (effective_ttl ttl_arg (ttl (self st))) serialized]
            (<[key := serialized]> (kv (srv st))) (srv st)))
  | Raise _ => (Ok false, st)
  end.
Proof.
  intros Hus Hf. unfold set. rewrite bind_run. cbn [gets]. rewrite Hus.
  rewrite try_except_run, bind_run. unfold lift at 1.
  destruct (json_dumps value) as [serialized|e]; [|reflexivity].
  rewrite bind_run. unfold redis_setex.
  rewrite client_call_healthy by exact Hf. reflexivity.
Qed.

Lemma delete_healthy (key : string) (st : state) :
  unusable (self st) = false ->
  faults (srv st) = [] ->
  delete key st =
  (Ok true,
   mkState (self st) (after [EDelete key] (base.delete key (kv (srv st))) (srv st))).
Proof.
  intros Hus Hf. unfold delete. rewrite bind_run. cbn [gets]. rewrite Hus.
  rewrite try_except_run, bind_run. unfold redis_delete.
  rewrite client_call_healthy by exact Hf. reflexivity.
Qed.

Lemma disconnect_healthy (st : state) :
  redis_client (self st) = Some tt ->
  faults (srv st) = [] ->
  disconnect st = (Ok tt, mkState (self st) (after [EClose] (kv (srv st)) (srv st))).
Proof.
  intros Hc Hf. unfold disconnect. rewrite bind_run. cbn [gets]. rewrite Hc.
  unfold redis_close. by rewrite client_call_healthy by exact Hf.
Qed.

(** The wrapper after its first two steps, for keyword arguments that
    [generate_key] accepts. *)
Lemma cached_after_prepare (prefix : string) (ttl_arg : option Z)
    (func : M server pyval) (args : list pyval) (kwargs : list (string * pyval))
    (st st1 : state) :
  "prefix" ∉ kwargs.*1 ->
  prepare settings st = (Ok tt, st1) ->
  cached settings prefix ttl_arg func args kwargs st =
  (get (generate_key prefix args kwargs) ≫= fun cached_result =>
     match cached_result with
     | PNone =>
         call func ≫= fun result =>
         set (generate_key prefix args kwargs) result ttl_arg ;;
         disconnect ;; mret result
     | _ => disconnect ;; mret cached_result
     end) st1.
Proof.
  intros Hk Hprep.
  by rewrite (cached_from_prepare settings _ _ _ _ _ _ _ Hprep),
    (call_generate_key_ok _ _ _ Hk).
Qed.

(** The state in which a healthy wrapper has read the cache. *)
Lemma cached_healthy (prefix : string) (ttl_arg : option Z)
    (func : M server pyval) (args : list pyval) (kwargs : list (string * pyval))
    (st : state) :
  "prefix" ∉ kwargs.*1 ->
  ENABLE_CACHE settings = true ->
  faults (srv st) = [] ->
  let key := generate_key prefix args kwargs in
  let stg :=
    mkState (connected (CACHE_TTL_SECONDS settings))
      (after [EFromUrl (REDIS_URL settings); EPing; EGet key] (kv (srv st)) (srv st)) in
  cached settings prefix ttl_arg func args kwargs st =
  match decoded (kv (srv st) !! key) with
  | PNone =>
      (call func ≫= fun result => set key result ttl_arg ;; disconnect ;; mret result)
        stg
  | v => (Ok v, mkState (self stg) (after [EClose] (kv (srv st)) (srv stg)))
  end.
Proof.
  intros Hk Hen Hf key stg.
  rewrite (cached_after_prepare _ _ _ _ _ _ _ Hk (prepare_healthy st Hen Hf)).
  rewrite bind_run, get_healthy by reflexivity.
  cbn [srv kv self]. fold key.
  replace (mkState _ (after [EGet key] _ _)) with stg
    by (unfold stg, after, connected; cbn [log]; by rewrite <- app_assoc).
  destruct (decoded (kv (srv st) !! key)) eqn:Hd; try reflexivity;
    rewrite bind_run, disconnect_healthy by reflexivity; reflexivity.
Qed.

End WithRuntime.

(** X15.  With the cache enabled, a server that answers and no keyword
    argument named prefix, a call whose key holds a text that decodes to a
    value other than [None] returns that value: the server sees from_url,
    ping, get and close, no entry changes, and the wrapped function is not
    called. *)
Theorem cache_hit_skips_function {rt : Runtime} (settings : Settings)
    (prefix : string) (ttl_arg : option Z) (func : M server pyval)
    (args : list pyval) (kwargs : list (string * pyval)) (st : state)
    (a : ascii) (t : string) (v : pyval) :
  "prefix" ∉ kwargs.*1 ->
  ENABLE_CACHE settings = true ->
  faults (srv st) = [] ->
  kv (srv st) !! generate_key prefix args kwargs = Some (String a t) ->
  json_loads (String a t) = Ok v ->
  v <> PNone ->
  cached settings prefix ttl_arg func args kwargs st =
  (Ok v,
   mkState (connected (CACHE_TTL_SECONDS settings))
     (after [EFromUrl (REDIS_URL settings); EPing;
             EGet (generate_key prefix args kwargs); EClose]
        (kv (srv st)) (srv st))).
Proof.
  intros Hk Hen Hf Hkv Hjson Hv.
  rewrite (cached_healthy settings _ _ _ _ _ _ Hk Hen Hf). cbv zeta.
  unfold decoded. rewrite Hkv, Hjson.
  unfold after. cbn [self srv log kv]. rewrite <- app_assoc. cbn [app].
  by destruct v.
Qed.

(** The theorem at a server that holds the answer: the wrapped function
    would raise, and is not called. *)
Lemma cache_hit_skips_function_witness :
  @cached Examples.codec_runtime default_settings "query" None Examples.failing_fn
    [] Examples.query_kwargs (Samples.start Examples.warm_server) =
  (Ok (PStr "forty-two"),
   mkState (connected 3600)
     (mkServer (kv Examples.warm_server) []
        [EFromUrl "redis://localhost:6379/0"; EPing; EGet Examples.query_key; EClose])).
Proof.
  apply (@cache_hit_skips_function Examples.codec_runtime default_settings "query" None
           Examples.failing_fn [] Examples.query_kwargs (Samples.start Examples.warm_server)
           Examples.quote_mark "forty-two" (PStr "forty-two")).
  - apply (bool_decide_unpack _). vm_compute. exact I.
  - reflexivity.
  - reflexivity.
  - vm_compute. reflexivity.
  - reflexivity.
  - discriminate.
Defined.

Lemma call_run (func : M server pyval) (st : state) (r : result pyval) (s2 : server) :
  func (mkServer (kv (srv st)) (faults (srv st)) (log (srv st) ++ [ECall])) = (r, s2) ->
  call func st = (r, mkState (self st) s2).
Proof. intros Hfunc. unfold call. by rewrite Hfunc. Qed.

(** X16.  With the cache enabled, a server that answers and no keyword
    argument named prefix, a call that finds nothing under its key runs the
    function and stores the result under the key with the effective time to
    live.  If the result survives the round trip through [json] and is not
    [None], a later call with the same arguments, whatever function it
    wraps, gets the result from the cache without calling the function, as
    long as the server answers and still holds the entry as the first call
    left it.  The server of the model has no clock: an entry that has
    expired is an entry that is no longer found. *)
Theorem second_call_is_served_from_cache {rt : Runtime} (settings : Settings)
    (prefix : string) (ttl_arg : option Z) (func : M server pyval)
    (args : list pyval) (kwargs : list (string * pyval)) (st : state)
    (r : pyval) (s2 : server) (a : ascii) (t : string) :
  let key := generate_key prefix args kwargs in
  "prefix" ∉ kwargs.*1 ->
  ENABLE_CACHE settings = true ->
  faults (srv st) = [] ->
  decoded (kv (srv st) !! key) = PNone ->
  func (after [EFromUrl (REDIS_URL settings); EPing; EGet key; ECall]
          (kv (srv st)) (srv st)) = (Ok r, s2) ->
  faults s2 = [] ->
  json_dumps r = Ok (String a t) ->
  json_loads (String a t) = Ok r ->
  r <> PNone ->
  exists st1,
    cached settings prefix ttl_arg func args kwargs st = (Ok r, st1)
    /\ srv st1 =
       after [ESetex key (effective_ttl ttl_arg (CACHE_TTL_SECONDS settings))
                (String a t); EClose]
         (<[key := String a t]> (kv s2)) s2
    /\ forall func' st',
         faults (srv st') = [] ->
         kv (srv st') !! key = kv (srv st1) !! key ->
         cached settings prefix ttl_arg func' args kwargs st' =
         (Ok r,
          mkState (connected (CACHE_TTL_SECONDS settings))
            (after [EFromUrl (REDIS_URL settings); EPing; EGet key; EClose]
               (kv (srv st')) (srv st'))).
Proof.
  intros key Hk Hen Hf Hmiss Hfunc Hf2 Hdumps Hloads Hr.
  set (st1 := mkState (connected (CACHE_TTL_SECONDS settings))
                (after [ESetex key (effective_ttl ttl_arg (CACHE_TTL_SECONDS settings))
                          (String a t); EClose]
                   (<[key := String a t]> (kv s2)) s2)).
  assert (Hentry : kv (srv st1) !! key = Some (String a t)).
  { unfold st1, after. cbn [srv kv]. apply lookup_insert_eq. }
  exists st1. split; [|split; [reflexivity|]].
  { rewrite (cached_healthy settings prefix ttl_arg func args kwargs st Hk Hen Hf).
    cbv zeta. fold key. rewrite Hmiss. cbv beta iota. rewrite (bind_run (call func)).
    erewrite call_run.
    2: { unfold after in Hfunc |- *. cbn [srv kv faults log].
         rewrite <- app_assoc. exact Hfunc. }
    cbv beta iota.
    rewrite (bind_run (set _ _ _)), set_healthy by (cbn [self srv]; done).
    rewrite Hdumps. cbv beta iota.
    rewrite (bind_run disconnect), disconnect_healthy by reflexivity.
    unfold st1, after. cbn [self srv kv ttl connected log]. by rewrite <- app_assoc. }
  intros func' st' Hf' Hsame.
  rewrite (cached_healthy settings prefix ttl_arg func' args kwargs st' Hk Hen Hf').
  cbv zeta. fold key. rewrite Hsame, Hentry. unfold decoded. rewrite Hloads.
  unfold after. cbn [self srv log kv]. rewrite <- !app_assoc. cbn [app].
  by destruct r.
Qed.

(** The theorem at an empty server: the first call runs the function, a
    second call with a function that would raise gets the stored answer. *)
Lemma second_call_is_served_from_cache_witness :
  exists st1,
    @cached Examples.codec_runtime default_settings "query" None Samples.answer_fn
      [] Examples.query_kwargs (Samples.start Examples.cold_server)
    = (Ok (PStr "forty-two"), st1)
    /\ fst (@cached Examples.codec_runtime default_settings "query" None
              Examples.failing_fn [] Examples.query_kwargs st1) = Ok (PStr "forty-two").
Proof.
  destruct (@second_call_is_served_from_cache Examples.codec_runtime default_settings
              "query" None Samples.answer_fn [] Examples.query_kwargs
              (Samples.start Examples.cold_server) (PStr "forty-two")
              (mkServer ∅ []
                 [EFromUrl "redis://localhost:6379/0"; EPing;
                  EGet Examples.query_key; ECall])
              Examples.quote_mark "forty-two")
    as (st1 & Hfirst & Hsrv & Hsecond).
  - apply (bool_decide_unpack _). vm_compute. exact I.
  - reflexivity.
  - reflexivity.
  - vm_compute. reflexivity.
  - reflexivity.
  - reflexivity.
  - reflexivity.
  - reflexivity.
  - discriminate.
  - exists st1. split; [exact Hfirst|].
    rewrite (Hsecond Examples.failing_fn st1); [reflexivity | by rewrite Hsrv | reflexivity].
Defined.

(** X17.  With the cache enabled, a server that answers and no keyword
    argument named prefix: when the wrapped function raises after a miss,
    the wrapper raises the same exception, nothing is stored, and the
    connection is not closed: the server is left as the function left
    it. *)
Theorem function_failure_skips_close {rt : Runtime} (settings : Settings)
    (prefix : string) (ttl_arg : option Z) (func : M server pyval)
    (args : list pyval) (kwargs : list (string * pyval)) (st : state)
    (e : exn) (s2 : server) :
  let key := generate_key prefix args kwargs in
  "prefix" ∉ kwargs.*1 ->
  ENABLE_CACHE settings = true ->
  faults (srv st) = [] ->
  decoded (kv (srv st) !! key) = PNone ->
  func (after [EFromUrl (REDIS_URL settings); EPing; EGet key; ECall]
          (kv (srv st)) (srv st)) = (Raise e, s2) ->
  cached settings prefix ttl_arg func args kwargs st =
  (Raise e, mkState (connected (CACHE_TTL_SECONDS settings)) s2).
Proof.
  intros key Hk Hen Hf Hmiss Hfunc.
  rewrite (cached_healthy settings prefix ttl_arg func args kwargs st Hk Hen Hf).
  cbv zeta. fold key. rewrite Hmiss. cbv beta iota. rewrite (bind_run (call func)).
  erewrite call_run.
  2: { unfold after in Hfunc |- *. cbn [srv kv faults log].
       rewrite <- app_assoc. exact Hfunc. }
  reflexivity.
Qed.

(** The theorem at an empty server and a function that raises: the last
    command the server saw is the [get]. *)
Lemma function_failure_skips_close_witness :
  @cached Examples.codec_runtime default_settings "query" None Examples.failing_fn
    [] Examples.query_kwargs (Samples.start Examples.cold_server) =
  (Raise OSError,
   mkState (connected 3600)
     (mkServer ∅ []
        [EFromUrl "redis://localhost:6379/0"; EPing; EGet Examples.query_key; ECall])).
Proof.
  apply (@function_failure_skips_close Examples.codec_runtime default_settings "query"
           None Examples.failing_fn [] Examples.query_kwargs
           (Samples.start Examples.cold_server)).
  - apply (bool_decide_unpack _). vm_compute. exact I.
  - reflexivity.
  - reflexivity.
  - vm_compute. reflexivity.
  - reflexivity.
Defined.

(** X18.  With the cache enabled, a server that answers and no keyword
    argument named prefix, a stored text that decodes to [None] counts as
    a miss: the function runs, and its result replaces the entry. *)
Theorem stored_null_is_a_miss {rt : Runtime} (settings : Settings)
    (prefix : string) (ttl_arg : option Z) (func : M server pyval)
    (args : list pyval) (kwargs : list (string * pyval)) (st : state)
    (a : ascii) (t : string) (r : pyval) (s2 : server) (serialized : string) :
  let key := generate_key prefix args kwargs in
  "prefix" ∉ kwargs.*1 ->
  ENABLE_CACHE settings = true ->
  faults (srv st) = [] ->
  kv (srv st) !! key = Some (String a t) ->
  json_loads (String a t) = Ok PNone ->
  func (after [EFromUrl (REDIS_URL settings); EPing; EGet key; ECall]
          (kv (srv st)) (srv st)) = (Ok r, s2) ->
  faults s2 = [] ->
  json_dumps r = Ok serialized ->
  cached settings prefix ttl_arg func args kwargs st =
  (Ok r,
   mkState (connected (CACHE_TTL_SECONDS settings))
     (after [ESetex key (effective_ttl ttl_arg (CACHE_TTL_SECONDS settings))
               serialized; EClose]
        (<[key := serialized]> (kv s2)) s2)).
Proof.
  intros key Hk Hen Hf Hkv Hloads Hfunc Hf2 Hdumps.
  rewrite (cached_healthy settings prefix ttl_arg func args kwargs st Hk Hen Hf).
  cbv zeta. fold key. unfold decoded. rewrite Hkv, Hloads.
  cbv beta iota. rewrite (bind_run (call func)).
  erewrite call_run.
  2: { unfold after in Hfunc |- *. cbn [srv kv faults log].
       rewrite <- app_assoc. exact Hfunc. }
  cbv beta iota.
  rewrite (bind_run (set _ _ _)), set_healthy by (cbn [self srv]; done).
  rewrite Hdumps. cbv beta iota.
  rewrite (bind_run disconnect), disconnect_healthy by reflexivity.
  unfold after. cbn [self srv kv ttl connected log]. by rewrite <- app_assoc.
Qed.

(** The theorem at a server that holds null under the key. *)
Lemma stored_null_is_a_miss_witness :
  fst (@cached Examples.codec_runtime default_settings "query" None Samples.answer_fn
         [] Examples.query_kwargs (Samples.start Examples.null_server))
  = Ok (PStr "forty-two").
Proof.
  rewrite (@stored_null_is_a_miss Examples.codec_runtime default_settings "query" None
             Samples.answer_fn [] Examples.query_kwargs
             (Samples.start Examples.null_server)
             "n"%char "ull" (PStr "forty-two")
             (mkServer (kv Examples.null_server) []
                [EFromUrl "redis://localhost:6379/0"; EPing;
                 EGet Examples.query_key; ECall])
             (String Examples.quote_mark "forty-two")).
  - reflexivity.
  - apply (bool_decide_unpack _). vm_compute. exact I.
  - reflexivity.
  - reflexivity.
  - vm_compute. reflexivity.
  - reflexivity.
  - reflexivity.
  - reflexivity.
  - reflexivity.
Defined.

(** X19.  With the cache disabled in the settings and no keyword argument
    named prefix, the wrapper is the wrapped function: same result or
    exception, and no command reaches the server, broken or not. *)
Theorem disabled_cache_is_transparent {rt : Runtime} (settings : Settings)
    (prefix : string) (ttl_arg : option Z) (func : M server pyval)
    (args : list pyval) (kwargs : list (string * pyval)) (st : state) :
  "prefix" ∉ kwargs.*1 ->
  ENABLE_CACHE settings = false ->
  cached settings prefix ttl_arg func args kwargs st =
  let (r, s2) :=
    func (mkServer (kv (srv st)) (faults (srv st)) (log (srv st) ++ [ECall])) in
  (r, mkState (new_cache settings) s2).
Proof.
  intros Hk Hoff.
  assert (Hprep : prepare settings st = (Ok tt, mkState (new_cache settings) (srv st))).
  { unfold prepare, connect. rewrite bind_run. cbn [set_self modify].
    rewrite bind_run. cbn [gets self]. unfold new_cache at 1. cbn [enabled].
    by rewrite Hoff. }
  rewrite (cached_pass_through settings _ _ _ _ _ _ _ Hk Hprep)
    by (cbn [self]; unfold new_cache; exact Hoff).
  rewrite bind_run. unfold call. cbn [srv self].
  destruct (func _) as [[r|e] s2]; [|reflexivity].
  rewrite bind_run. unfold disconnect. rewrite bind_run. cbn [gets self].
  unfold new_cache. reflexivity.
Qed.

(** The theorem at a server that would refuse the [ping] and the [close]:
    with the cache switched off, no command reaches it. *)
Lemma disabled_cache_is_transparent_witness :
  @cached Examples.codec_runtime Examples.cache_off "query" None Samples.answer_fn
    [] Examples.query_kwargs (Samples.start Samples.flaky_server) =
  (Ok (PStr "forty-two"),
   mkState (new_cache Examples.cache_off)
     (mkServer ∅ [false; true; true] [ECall])).
Proof.
  apply (@disabled_cache_is_transparent Examples.codec_runtime Examples.cache_off
           "query" None Samples.answer_fn [] Examples.query_kwargs
           (Samples.start Samples.flaky_server)).
  - apply (bool_decide_unpack _). vm_compute. exact I.
  - reflexivity.
Defined.

(** X20.  On a usable manager and a server that answers, [set] of a value
    that [json] can write returns true and sends one setex with the given
    time to live, or the manager's when none or 0 is given; [get] of the
    key then answers what the written text decodes to, the other keys
    answer as before, and after [delete] the key answers [None]. *)
Theorem set_get_delete_round_trip {rt : Runtime} (key : string) (value : pyval)
    (ttl_arg : option Z) (st : state) (serialized : string) :
  unusable (self st) = false ->
  faults (srv st) = [] ->
  json_dumps value = Ok serialized ->
  exists st1 st2,
    set key value ttl_arg st = (Ok true, st1)
    /\ log (srv st1) =
       (log (srv st) ++
        [ESetex key (effective_ttl ttl_arg (ttl (self st))) serialized])%list
    /\ fst (get key st1) = Ok (decoded (Some serialized))
    /\ (forall other, other <> key -> fst (get other st1) = fst (get other st))
    /\ delete key st1 = (Ok true, st2)
    /\ fst (get key st2) = Ok PNone.
Proof.
  intros Hus Hf Hdumps.
  eexists _, _. split.
  { rewrite set_healthy by done. rewrite Hdumps. reflexivity. }
  split; [reflexivity|]. split.
  { rewrite get_healthy by done. cbn [fst srv after kv]. by rewrite lookup_insert_eq. }
  split.
  { intros other Hne. rewrite !get_healthy by done.
    cbn [fst srv after kv]. by rewrite lookup_insert_ne. }
  split.
  { rewrite delete_healthy by done. reflexivity. }
  rewrite get_healthy by done. cbn [fst srv after kv]. by rewrite lookup_delete_eq.
Qed.

(** The theorem at a connected manager and an empty server. *)
Lemma set_get_delete_round_trip_witness :
  exists st1 st2,
    @set Examples.codec_runtime "k" (PStr "v") (Some 0%Z)
      (mkState (connected 3600) Examples.cold_server) = (Ok true, st1)
    /\ log (srv st1) = [ESetex "k" 3600 (String Examples.quote_mark "v")]
    /\ fst (@get Examples.codec_runtime "k" st1) = Ok (PStr "v")
    /\ delete "k" st1 = (Ok true, st2)
    /\ fst (@get Examples.codec_runtime "k" st2) = Ok PNone.
Proof.
  destruct (@set_get_delete_round_trip Examples.codec_runtime "k" (PStr "v") (Some 0%Z)
              (mkState (connected 3600) Examples.cold_server)
              (String Examples.quote_mark "v"))
    as (st1 & st2 & Hset & Hlog & Hget & _ & Hdel & Hgone).
  - reflexivity.
  - reflexivity.
  - reflexivity.
  - exists st1, st2. repeat split; assumption.
Defined.

End CacheMore.

(** ** The routes *)
Module ApiProofs.
Import Text Config Processor Validator ValidatorProofs Api.

Lemma validate_string (response : gmap string pyval) (docs : list Document)
    (vr : validation_result) (a : string) :
  validate response docs = Ok vr ->
  response !! "answer" = Some (PStr a) ->
  vr = validate_answer a docs.
Proof.
  unfold validate. intros Hv Ha. rewrite Ha in Hv. simpl in Hv. congruence.
Qed.

(** X21.  The query route ends in status 404 exactly when the retrieval
    returns no chunk, and in no other status than 404 and 500.  A response
    carries the answer text of the chain, the number of chunks retrieved,
    the grounding and quality scores and the warnings of the validator on
    that answer and those chunks, and no sources when none were asked for.
    A chain result without an answer passes the validator and still ends
    in status 500. *)
Theorem query_outcomes `{QueryEnv} (request : QueryRequest) :
  let found := similarity_search (query request) (top_k request)
                 (filters_or_none (filters request)) in
  (query_documents request = HTTPException 404 <-> found = Ok []) /\
  (forall status, query_documents request = HTTPException status ->
     status = 404%Z \/ status = 500%Z) /\
  (forall r, query_documents request = Respond r ->
     exists docs response,
       found = Ok docs /\ docs <> [] /\
       generate_response (query request) docs (include_sources request) = Ok response /\
       response !! "answer" = Some (PStr (answer r)) /\
       response_query r = query request /\
       context_docs_count r = length docs /\
       grounding_score r = check_grounding (answer r) docs /\
       quality_score r = calculate_quality_score (answer r) (check_grounding (answer r) docs) /\
       Api.warnings r = Validator.warnings (validate_answer (answer r) docs) /\
       (include_sources request = false -> sources r = None)) /\
  (forall docs response,
     found = Ok docs -> docs <> [] ->
     generate_response (query request) docs (include_sources request) = Ok response ->
     response !! "answer" = None ->
     (exists vr, validate response docs = Ok vr) /\
     query_documents request = HTTPException 500).
Proof.
  cbv zeta. unfold query_documents.
  destruct (similarity_search _ _ _) as [docs|e] eqn:Hs.
  2:{ split; [split; discriminate|].
      split; [intros status [= <-]; now right|].
      split; [discriminate|]. intros docs response [=]. }
  destruct docs as [|doc docs].
  { split; [split; reflexivity|].
    split; [intros status [= <-]; now left|].
    split; [discriminate|]. intros docs response [= <-] Hne. now destruct Hne. }
  destruct (generate_response _ _ _) as [response|e] eqn:Hg.
  2:{ split; [split; discriminate|].
      split; [intros status [= <-]; now right|].
      split; [discriminate|]. intros docs' response' [= <-] _. congruence. }
  destruct (validate response (doc :: docs)) as [vr|e] eqn:Hv.
  2:{ split; [split; discriminate|].
      split; [intros status [= <-]; now right|].
      split; [discriminate|].
      intros docs' response' [= <-] _ Hg' Hn.
      rewrite Hg in Hg'. injection Hg' as <-.
      unfold validate in Hv. rewrite Hn in Hv. discriminate. }
  destruct (response_sources request response) as [srcs|e] eqn:Hb.
  2:{ split; [split; discriminate|].
      split; [intros status [= <-]; now right|].
      split; [discriminate|].
      intros docs' response' [= <-] _ Hg' Hn.
      rewrite Hg in Hg'. injection Hg' as <-. eauto. }
  destruct (response !! "answer") as [v|] eqn:Ha.
  2:{ split; [split; discriminate|].
      split; [intros status [= <-]; now right|].
      split; [discriminate|].
      intros docs' response' [= <-] _ Hg' Hn.
      rewrite Hg in Hg'. injection Hg' as <-. eauto. }
  destruct v as [| a | z | l];
    try (unfold validate in Hv; rewrite Ha in Hv; discriminate).
  pose proof (validate_string _ _ _ _ Hv Ha) as ->.
  split; [split; discriminate|].
  split; [discriminate|].
  split.
  - intros r Hr.
    assert (Hr' : r = mkQueryResponse (query request) a srcs (length (doc :: docs))
                    (Validator.grounding_score (validate_answer a (doc :: docs)))
                    (Validator.quality_score (validate_answer a (doc :: docs)))
                    (Validator.warnings (validate_answer a (doc :: docs))))
      by congruence.
    rewrite Hr'. exists (doc :: docs), response.
    unfold Api.answer, Api.response_query, Api.context_docs_count, Api.grounding_score,
      Api.quality_score, Api.warnings, Api.sources.
    rewrite validate_answer_grounding, validate_answer_quality.
    repeat (split; [congruence|]).
    intros Hi. unfold response_sources in Hb. rewrite Hi in Hb. congruence.
  - intros docs' response' [= <-] _ Hg' Hn.
    rewrite Hg in Hg'. injection Hg' as <-. congruence.
Qed.


End ApiProofs.
